(** * LoRaCloud geolocation integration

    A shallow embedding of [internal/integration/loracloud/loracloud.go]:
    the uplink handler, the geolocation buffer update, the strategy
    orchestrator ([geolocation]), the four resolver wrappers, the
    fine-timestamp filter and the two object extractors.

    Go values are modelled as follows.  Slices are lists ([nil] and the
    empty slice are both [[]], the code only ever takes [len] of them);
    fixed-size byte arrays are lists filled by [copy_array]; a function
    returning [(v, err)] returns a pair whose second component is an
    [option error]; the collaborators (key-value store, resolver client,
    sink, logger, metrics) are calls recorded in a trace and answered by an
    environment. *)

From Stdlib Require Import ZArith Lia Floats.SpecFloat.
From stdpp Require Import gmap strings list.

Open Scope Z_scope.

(** ** Bytes and arrays *)

Abbreviation byte := Byte.byte.

#[global] Instance byte_eq_dec : EqDecision byte := Byte.byte_eq_dec.
#[global] Instance byte_countable : Countable byte :=
  inj_countable Byte.to_N Byte.of_N Byte.of_to_N.

(** Go's [copy(dst[:], src)] into a freshly declared (zeroed) array of
    [n] bytes: the first [min n (len src)] bytes of [src], then zeros. *)
Definition copy_array (n : nat) (src : list byte) : list byte :=
  take n src ++ replicate (n - length src)%nat Byte.x00.

(** [lorawan.EUI64] is [[8]byte]. *)
Abbreviation EUI64 := (list byte) (only parsing).

(** ** Errors *)

Inductive error : Type :=
  | ErrNoLocation                       (* geolocation.ErrNoLocation *)
  | External (msg : string)             (* raised by a collaborator or library *)
  | Wrap (cause : error) (msg : string) (* errors.Wrap(cause, msg) *)
  | Errorf (msg : string).              (* fmt.Errorf(...) *)

#[global] Instance error_eq_dec : EqDecision error.
Proof. solve_decision. Defined.

(** ** Floating point

    A [float64] is modelled by its IEEE 754 value ([spec_float] of the
    Standard Library).  [float64_to_int] is Go's conversion [int(x)] on a
    64-bit platform: truncation toward zero.  For a value that [int] cannot
    represent (NaN, infinities, out of range) Go leaves the result to the
    implementation; the model returns what amd64 returns, [-2^63]. *)

Abbreviation float64 := spec_float.

Definition min_int64 : Z := - 2 ^ 63.
Definition max_int64 : Z := 2 ^ 63 - 1.

Definition float64_to_int (x : float64) : Z :=
  match x with
  | S754_zero _ => 0
  | S754_infinity _ | S754_nan => min_int64
  | S754_finite s m e =>
      let mag := if 0 <=? e then Z.pos m * 2 ^ e else Z.pos m / 2 ^ (- e) in
      let v := if s then - mag else mag in
      if (min_int64 <=? v) && (v <=? max_int64) then v else min_int64
  end.

(** [int64] wrap-around, and [time.Duration(n) * time.Second]. *)
Definition wrap_int64 (z : Z) : Z := (z + 2 ^ 63) mod 2 ^ 64 - 2 ^ 63.

Definition seconds (n : Z) : Z := wrap_int64 (n * 1000000000).

(** ** Data model *)

Inductive LocationSource : Type :=
  | UNKNOWN | GPS | CONFIG
  | GEO_RESOLVER_TDOA | GEO_RESOLVER_RSSI | GEO_RESOLVER_GNSS | GEO_RESOLVER_WIFI.

(** [common.Location] *)
Record Location : Type := {
  Latitude : float64;
  Longitude : float64;
  Altitude : float64;
  Source : LocationSource;
  Accuracy : Z
}.

(** The [fine_timestamp] oneof of [gw.UplinkRXInfo]. *)
Inductive FineTimestampT : Type :=
  | EncryptedFineTimestamp (aesKeyIndex : Z) (encryptedNs fpgaId : list byte)
  | PlainFineTimestamp (nanos : Z).

(** [gw.UplinkRXInfo]: one gateway's reception of one frame. *)
Record UplinkRXInfo : Type := {
  GatewayId : list byte;
  Rssi : Z;
  LoraSnr : float64;
  RxLocation : option Location;
  FineTimestamp : option FineTimestampT;
  UplinkId : list byte
}.

Abbreviation Frame := (list UplinkRXInfo) (only parsing).
Abbreviation Buffer := (list (list UplinkRXInfo)) (only parsing).

(** [pb.UplinkEvent] *)
Record UplinkEvent : Type := {
  ApplicationId : Z;
  ApplicationName : string;
  DeviceName : string;
  DevEui : list byte;
  RxInfo : list UplinkRXInfo;
  FCnt : Z;
  ObjectJson : string;
  Tags : gmap string string
}.

(** [pb.LocationEvent] *)
Record LocationEvent : Type := {
  LApplicationId : Z;
  LApplicationName : string;
  LDeviceName : string;
  LDevEui : list byte;
  LTags : gmap string string;
  LLocation : Location;
  LUplinkIds : list (list byte);
  LFCnt : Z
}.

(** [geolocation.WifiAccessPoint]; [MacAddress] is [[6]byte]. *)
Record WifiAccessPoint : Type := {
  MacAddress : list byte;
  SignalStrength : Z
}.

Record Config : Type := {
  Geolocation : bool;
  GeolocationToken : string;
  GeolocationBufferTTL : Z;
  GeolocationMinBufferSize : Z;
  GeolocationTDOA : bool;
  GeolocationRSSI : bool;
  GeolocationGNSS : bool;
  GeolocationGNSSPayloadField : string;
  GeolocationGNSSUseRxTime : bool;
  GeolocationWifi : bool;
  GeolocationWifiPayloadField : string
}.

Record Integration : Type := {
  config : Config;
  geolocationURI : string
}.

Definition New (conf : Config) : Integration * option error :=
  ({| config := conf; geolocationURI := "https://gls.loracloud.com" |}, None).

(** What [json.Unmarshal] stores in a [map[string]interface{}]. *)
#[warnings="-register-all"]
Inductive JSON : Type :=
  | JNull
  | JBool (b : bool)
  | JNumber (f : float64)
  | JString (s : string)
  | JArray (l : list JSON)
  | JObject (m : gmap string JSON).

(** The [%T] verb on an [interface{}] holding a decoded JSON value;
    [None] is the nil interface of a missing key. *)
Definition go_type_name (v : option JSON) : string :=
  match v with
  | None | Some JNull => "<nil>"
  | Some (JBool _) => "bool"
  | Some (JNumber _) => "float64"
  | Some (JString _) => "string"
  | Some (JArray _) => "[]interface {}"
  | Some (JObject _) => "map[string]interface {}"
  end.

(** ** Collaborators *)

(** The six calls of the resolver client. *)
Inductive ResolverCall : Type :=
  | TDOASingleFrame (rxInfo : list UplinkRXInfo)
  | TDOAMultiFrame (rxInfo : list (list UplinkRXInfo))
  | RSSISingleFrame (rxInfo : list UplinkRXInfo)
  | RSSIMultiFrame (rxInfo : list (list UplinkRXInfo))
  | GNSSLR1110SingleFrame (rxInfo : list UplinkRXInfo) (useRxTime : bool) (pl : list byte)
  | WifiTDOASingleFrame (rxInfo : list UplinkRXInfo) (aps : list WifiAccessPoint).

Inductive Level : Type := ErrorLevel | DebugLevel.

(** One entry per call that leaves the package. *)
Inductive IO : Type :=
  | IOGetGeolocBuffer (devEUI : list byte) (ttl : Z)
  | IOSaveGeolocBuffer (devEUI : list byte) (items : list (list UplinkRXInfo)) (ttl : Z)
  | IOResolver (uri token : string) (call : ResolverCall)
  | IOObserve (label : string)
  | IOLog (lvl : Level) (msg : string) (err : option error)
  | IOHandleLocationEvent (vars : gmap string string) (pl : LocationEvent).

(** How the world outside answers during one uplink: the two library
    decoders, whether the store fails, what the resolver returns for a
    call (a Go pair: the location and the error), what the sink returns. *)
Record Env : Type := {
  json_Unmarshal : string → error + gmap string JSON;
  base64_DecodeString : string → error + list byte;
  store_get_fault : option error;
  store_save_fault : option error;
  resolver : ResolverCall → Location * option error;
  sink_HandleLocationEvent : LocationEvent → option error
}.

(** The store maps a device to its frames and the TTL of the last write;
    the trace lists the calls made so far, oldest first. *)
Record World : Type := {
  kv : gmap (list byte) (list (list UplinkRXInfo) * Z);
  trace : list IO
}.

Definition M (A : Type) : Type := World → A * World.

#[global] Instance M_ret : MRet M := λ A a w, (a, w).
#[global] Instance M_bind : MBind M :=
  λ A B f m w, let '(a, w') := m w in f a w'.

Definition emit (e : IO) : M unit :=
  λ w, (tt, {| kv := kv w; trace := trace w ++ [e] |}).

Definition read_kv : M (gmap (list byte) (list (list UplinkRXInfo) * Z)) :=
  λ w, (kv w, w).

Definition write_kv (m : gmap (list byte) (list (list UplinkRXInfo) * Z)) : M unit :=
  λ w, (tt, {| kv := m; trace := trace w |}).

(** ** Metadata filter *)

Definition hasFineTimestamp (rx : UplinkRXInfo) : bool :=
  match FineTimestamp rx with Some _ => true | None => false end.

(** The two nested [for ... range] loops of [filterOnFineTimestamp], each
    appending to its accumulator. *)
Definition filterOnFineTimestamp (geolocBuffer : Buffer) (minPerFrame : Z) : Buffer :=
  fold_left
    (fun out frame =>
       let f := fold_left
                  (fun f rx => if hasFineTimestamp rx then f ++ [rx] else f)
                  frame [] in
       if Z.of_nat (length f) >=? minPerFrame then out ++ [f] else out)
    geolocBuffer [].

(** The two loops as list functions: keep the receptions whose
    fine-timestamp oneof is set, then the frames that still have enough. *)
Definition keptFrames (buffer : Buffer) (minPerFrame : Z) : Buffer :=
  List.filter (fun f => minPerFrame <=? Z.of_nat (length f))
    (map (List.filter hasFineTimestamp) buffer).

(** The two variants of the oneof. *)
Definition hasPlainFineTimestamp (rx : UplinkRXInfo) : bool :=
  match FineTimestamp rx with Some (PlainFineTimestamp _) => true | _ => false end.

Definition hasEncryptedFineTimestamp (rx : UplinkRXInfo) : bool :=
  match FineTimestamp rx with Some (EncryptedFineTimestamp _ _ _) => true | _ => false end.

(** The filter as the specification words it.  In the data model of the
    specification a fine timestamp that is present is a nanosecond value,
    and the comment above [filterOnFineTimestamp] speaks of a plain
    fine-timestamp: keep the receptions with a plain fine timestamp, then
    keep the frames that still have enough. *)
Definition spec_filter_on_fine_timestamp (buffer : Buffer) (min_per_frame : Z) : Buffer :=
  List.filter (fun f => min_per_frame <=? Z.of_nat (length f))
    (map (List.filter hasPlainFineTimestamp) buffer).

(** ** Object extractors *)

Definition getBytesFromJSONObject (env : Env) (field jsonStr : string)
  : list byte * option error :=
  if decide (jsonStr = "") then ([], None)
  else
    match json_Unmarshal env jsonStr with
    | inl err => ([], Some (Wrap err "unmarshal json error"))
    | inr v =>
        match v !! field with
        | None => ([], None)
        | Some (JString str) =>
            match base64_DecodeString env str with
            | inl err => ([], Some (Wrap err "base64 decode error"))
            | inr b => (b, None)
            end
        | Some vv => ([], Some (Errorf ("expected string, got " +:+ go_type_name (Some vv))))
        end
    end.

(** The loop of [getWifiAccessPointsFromJSONObject] over [aps], with the
    slice [out] built so far; an error returns at once. *)
Fixpoint wifiAccessPointsLoop (env : Env) (aps : list JSON) (out : list WifiAccessPoint)
  : list WifiAccessPoint * option error :=
  match aps with
  | [] => (out, None)
  | JObject vvv :: aps' =>
      match vvv !! "macAddress" with
      | Some (JString bssid) =>
          match base64_DecodeString env bssid with
          | inl err => ([], Some (Wrap err "base64 decode error"))
          | inr b =>
              let mac := copy_array 6 b in
              match vvv !! "signalStrength" with
              | Some (JNumber ss) =>
                  let ap := {| MacAddress := mac; SignalStrength := float64_to_int ss |} in
                  wifiAccessPointsLoop env aps' (out ++ [ap])
              | other =>
                  ([], Some (Errorf ("signalStrength must be a float64, got: "
                                       +:+ go_type_name other)))
              end
          end
      | other =>
          ([], Some (Errorf ("macAddress must be a string, got: " +:+ go_type_name other)))
      end
  | x :: _ => ([], Some (Errorf ("expected key / value map, got: " +:+ go_type_name (Some x))))
  end.

Definition getWifiAccessPointsFromJSONObject (env : Env) (field jsonStr : string)
  : list WifiAccessPoint * option error :=
  if decide (jsonStr = "") then ([], None)
  else
    match json_Unmarshal env jsonStr with
    | inl err => ([], Some (Wrap err "unmarshal json error"))
    | inr v =>
        match v !! field with
        | None => ([], None)
        | Some (JArray aps) => wifiAccessPointsLoop env aps []
        | Some vv =>
            ([], Some (Errorf ("field content must be a list of objects, got: "
                                 +:+ go_type_name (Some vv))))
        end
    end.

(** ** Geolocation buffer *)

(** Modelled from the spec: what a read under [ttl] finds in the store.
    With a TTL of zero the buffer is single-frame only (section 3): nothing
    that was stored is read back, and the same holds for a TTL below zero,
    under which every entry has expired.  Under a positive TTL the read
    finds the frames of the device, or none when the entry is absent or
    has expired (expiry is a step of the store, see [store_step]). *)
Definition storedFrames (m : gmap (list byte) (list (list UplinkRXInfo) * Z))
    (devEUI : list byte) (ttl : Z) : list (list UplinkRXInfo) :=
  if 0 <? ttl then
    match m !! devEUI with
    | Some (items, _) => items
    | None => []
    end
  else [].

(** Modelled from the spec: the store after a write of [items] under
    [ttl].  The entry of the device is replaced and its TTL set; under a
    TTL of zero or less the entry has expired as soon as it is written, so
    that nothing is kept under the key. *)
Definition storeFrames (m : gmap (list byte) (list (list UplinkRXInfo) * Z))
    (devEUI : list byte) (items : list (list UplinkRXInfo)) (ttl : Z)
  : gmap (list byte) (list (list UplinkRXInfo) * Z) :=
  if 0 <? ttl then <[devEUI := (items, ttl)]> m else delete devEUI m.

(** Modelled from the spec: [GetGeolocBuffer] is not among the sources.
    It returns the current buffer of the device as read under [ttl], or
    the empty buffer when there is none (absent, expired, or a TTL that
    keeps nothing); empty is not an error.  A store error is surfaced. *)
Definition GetGeolocBuffer (env : Env) (devEUI : EUI64) (ttl : Z)
  : M (list (list UplinkRXInfo) * option error) :=
  _ ← emit (IOGetGeolocBuffer devEUI ttl);
  match store_get_fault env with
  | Some err => mret ([], Some err)
  | None =>
      m ← read_kv;
      mret (storedFrames m devEUI ttl, None)
  end.

(** Modelled from the spec: [SaveGeolocBuffer] is not among the sources.
    It writes the buffer and sets the TTL; saving an empty sequence is a
    no-op; a store error is surfaced and leaves the store as it was. *)
Definition SaveGeolocBuffer (env : Env) (devEUI : EUI64)
    (items : list (list UplinkRXInfo)) (ttl : Z) : M (option error) :=
  _ ← emit (IOSaveGeolocBuffer devEUI items ttl);
  match items with
  | [] => mret None
  | _ =>
      match store_save_fault env with
      | Some err => mret (Some err)
      | None =>
          m ← read_kv;
          _ ← write_kv (storeFrames m devEUI items ttl);
          mret None
      end
  end.

Definition updateGeolocBuffer (env : Env) (i : Integration) (devEUI : EUI64) (pl : UplinkEvent)
  : M (list (list UplinkRXInfo) * option error) :=
  (* read the geoloc buffer *)
  '(geolocBuffer, err) ← GetGeolocBuffer env devEUI (seconds (GeolocationBufferTTL (config i)));
  match err with
  | Some err => mret ([], Some (Wrap err "get geoloc buffer error"))
  | None =>
      (* if the uplink was received by at least 3 gateways, append the
         metadata to the buffer *)
      let geolocBuffer :=
        if Z.of_nat (length (RxInfo pl)) >=? 3 then geolocBuffer ++ [RxInfo pl]
        else geolocBuffer in
      (* Save the buffer when there are > 0 items. *)
      if negb (Z.of_nat (length geolocBuffer) =? 0) then
        err ← SaveGeolocBuffer env devEUI geolocBuffer (seconds (GeolocationBufferTTL (config i)));
        match err with
        | Some err => mret ([], Some (Wrap err "save geoloc buffer error"))
        | None => mret (geolocBuffer, None)
        end
      else mret (geolocBuffer, None)
  end.

(** ** Resolver wrappers *)

(** A call of a method of [geolocation.New(i.geolocationURI, token)]. *)
Definition callResolver (env : Env) (i : Integration) (call : ResolverCall)
  : M (Location * option error) :=
  _ ← emit (IOResolver (geolocationURI i) (GeolocationToken (config i)) call);
  mret (resolver env call).

Definition tdoaGeolocation (env : Env) (i : Integration) (devEUI : EUI64)
    (geolocBuffer : list (list UplinkRXInfo)) : M (option Location * option error) :=
  '(loc, err) ←
    match geolocBuffer with
    | [frame] =>
        (* single-frame geoloc *)
        r ← callResolver env i (TDOASingleFrame frame);
        _ ← emit (IOObserve "v2_tdoa_single"); mret r
    | _ =>
        (* multi-frame geoloc *)
        r ← callResolver env i (TDOAMultiFrame geolocBuffer);
        _ ← emit (IOObserve "v2_tdoa_multi"); mret r
    end;
  match err with
  | Some err =>
      if decide (err = ErrNoLocation) then mret (None, None)
      else mret (None, Some (Wrap err "geolocation error"))
  | None => mret (Some loc, None)
  end.

Definition rssiGeolocation (env : Env) (i : Integration) (devEUI : EUI64)
    (geolocBuffer : list (list UplinkRXInfo)) : M (option Location * option error) :=
  '(loc, err) ←
    match geolocBuffer with
    | [frame] =>
        (* single-frame geoloc *)
        r ← callResolver env i (RSSISingleFrame frame);
        _ ← emit (IOObserve "v2_rssi_single"); mret r
    | _ =>
        (* multi-frame geoloc *)
        r ← callResolver env i (RSSIMultiFrame geolocBuffer);
        _ ← emit (IOObserve "v2_rssi_multi"); mret r
    end;
  match err with
  | Some err =>
      if decide (err = ErrNoLocation) then mret (None, None)
      else mret (None, Some (Wrap err "geolocation error"))
  | None => mret (Some loc, None)
  end.

Definition gnssLR1110Geolocation (env : Env) (i : Integration) (devEUI : EUI64)
    (rxInfo : list UplinkRXInfo) (pl : list byte) : M (option Location * option error) :=
  '(loc, err) ←
    callResolver env i
      (GNSSLR1110SingleFrame rxInfo (GeolocationGNSSUseRxTime (config i)) pl);
  match err with
  | Some err =>
      if decide (err = ErrNoLocation) then mret (None, None)
      else mret (None, Some (Wrap err "geolocation error"))
  | None =>
      _ ← emit (IOObserve "v3_gnss_rl1110_single");
      mret (Some loc, None)
  end.

(** In [wifiTDOAGeolocation] the [if err != nil] block only returns for
    [ErrNoLocation]; any other error falls out of the block. *)
Definition wifiTDOAGeolocation (env : Env) (i : Integration) (devEUI : EUI64)
    (rxInfo : list UplinkRXInfo) (aps : list WifiAccessPoint)
  : M (option Location * option error) :=
  '(loc, err) ← callResolver env i (WifiTDOASingleFrame rxInfo aps);
  let noLocation :=
    match err with
    | Some err => bool_decide (err = ErrNoLocation)
    | None => false
    end in
  if noLocation then mret (None, None)
  else
    _ ← emit (IOObserve "v2_wifi_tdoa_single");
    mret (Some loc, None).

(** ** Orchestrator *)

(** The nested loops that collect [GetUplinkId()] of every reception. *)
Definition collectUplinkIDs (frames : list (list UplinkRXInfo)) : list (list byte) :=
  fold_left
    (fun uplinkIDs frame =>
       fold_left (fun uplinkIDs rx => uplinkIDs ++ [UplinkId rx]) frame uplinkIDs)
    frames [].

(** What [geolocation] returns: [(uplinkIDs, loc, err)]. *)
Abbreviation GeolocResult :=
  (list (list byte) * option Location * option error)%type (only parsing).

(** Each of the four [if i.config.Geolocation...] blocks of [geolocation]
    either returns from the function ([Some r]) or falls out of the block
    to the next one ([None]). *)
Definition gnssBlock (env : Env) (i : Integration) (devEUI : EUI64) (pl : UplinkEvent)
  : M (option GeolocResult) :=
  if GeolocationGNSS (config i) then
    let '(gnssPL, err) :=
      getBytesFromJSONObject env (GeolocationGNSSPayloadField (config i)) (ObjectJson pl) in
    match err with
    | Some err =>
        _ ← emit (IOLog ErrorLevel
                    "integration/loracloud: get gnss bytes from object error" (Some err));
        mret (Some ([], None, None))
    | None =>
        if Z.of_nat (length gnssPL) =? 0 then
          _ ← emit (IOLog DebugLevel
                      "integration/loracloud: no gnss bytes found in object" None);
          mret None
        else
          '(loc, err) ← gnssLR1110Geolocation env i devEUI (RxInfo pl) gnssPL;
          mret (Some ([], loc, err))
    end
  else mret None.

Definition wifiBlock (env : Env) (i : Integration) (devEUI : EUI64) (pl : UplinkEvent)
  : M (option GeolocResult) :=
  if GeolocationWifi (config i) then
    let '(wifiAPs, err) :=
      getWifiAccessPointsFromJSONObject env
        (GeolocationWifiPayloadField (config i)) (ObjectJson pl) in
    match err with
    | Some err =>
        _ ← emit (IOLog ErrorLevel
                    "integration/loracloud: get wifi access-points from object error"
                    (Some err));
        mret (Some ([], None, None))
    | None =>
        if Z.of_nat (length wifiAPs) =? 0 then
          _ ← emit (IOLog DebugLevel
                      "integration/loracloud: no wifi access-points found in object" None);
          mret None
        else
          '(loc, err) ← wifiTDOAGeolocation env i devEUI (RxInfo pl) wifiAPs;
          mret (Some ([], loc, err))
    end
  else mret None.

Definition tdoaBlock (env : Env) (i : Integration) (devEUI : EUI64)
    (geolocBuffer : list (list UplinkRXInfo)) : M (option GeolocResult) :=
  if GeolocationTDOA (config i) then
    let tdoaFiltered := filterOnFineTimestamp geolocBuffer 3 in
    if (Z.of_nat (length tdoaFiltered) =? 0)
       || (Z.of_nat (length tdoaFiltered) <? GeolocationMinBufferSize (config i)) then
      _ ← emit (IOLog DebugLevel
                  "integration/loracloud: not enough meta-data for tdoa geolocation" None);
      mret None
    else
      let uplinkIDs := collectUplinkIDs tdoaFiltered in
      '(loc, err) ← tdoaGeolocation env i devEUI tdoaFiltered;
      mret (Some (uplinkIDs, loc, err))
  else mret None.

Definition rssiBlock (env : Env) (i : Integration) (devEUI : EUI64)
    (geolocBuffer : list (list UplinkRXInfo)) : M (option GeolocResult) :=
  if GeolocationRSSI (config i) then
    if (Z.of_nat (length geolocBuffer) =? 0)
       || (Z.of_nat (length geolocBuffer) <? GeolocationMinBufferSize (config i)) then
      _ ← emit (IOLog DebugLevel
                  "integration/loracloud: not enough meta-data for rssi geolocation" None);
      mret None
    else
      let uplinkIDs := collectUplinkIDs geolocBuffer in
      '(loc, err) ← rssiGeolocation env i devEUI geolocBuffer;
      mret (Some (uplinkIDs, loc, err))
  else mret None.

(** Run a block; go on with [next] only when the block did not return. *)
Definition orElse {A : Type} (block : M (option A)) (next : M A) : M A :=
  r ← block;
  match r with
  | Some a => mret a
  | None => next
  end.

Definition geolocation (env : Env) (i : Integration) (devEUI : EUI64)
    (geolocBuffer : list (list UplinkRXInfo)) (pl : UplinkEvent) : M GeolocResult :=
  orElse (gnssBlock env i devEUI pl)
    (orElse (wifiBlock env i devEUI pl)
       (orElse (tdoaBlock env i devEUI geolocBuffer)
          (orElse (rssiBlock env i devEUI geolocBuffer)
             (mret ([], None, None))))).

(** ** Integration facade *)

Definition HandleUplinkEvent (env : Env) (i : Integration)
    (vars : gmap string string) (pl : UplinkEvent) : M (option error) :=
  let devEUI := copy_array 8 (DevEui pl) in
  if Geolocation (config i) then
    (* update and get geoloc buffer *)
    '(geolocBuffer, err) ← updateGeolocBuffer env i devEUI pl;
    match err with
    | Some err => mret (Some (Wrap err "update geolocation buffer error"))
    | None =>
        (* do geolocation *)
        '(uplinkIDs, loc, err) ← geolocation env i devEUI geolocBuffer pl;
        match err with
        | Some err => mret (Some (Wrap err "geolocation error"))
        | None =>
            (* if it resolved to a location, send it to integrations *)
            match loc with
            | Some loc =>
                let fCnt := if Z.of_nat (length uplinkIDs) =? 0 then FCnt pl else 0 in
                let ev := {| LApplicationId := ApplicationId pl;
                             LApplicationName := ApplicationName pl;
                             LDeviceName := DeviceName pl;
                             LDevEui := DevEui pl;
                             LTags := Tags pl;
                             LLocation := loc;
                             LUplinkIds := uplinkIDs;
                             LFCnt := fCnt |} in
                _ ← emit (IOHandleLocationEvent vars ev);
                match sink_HandleLocationEvent env ev with
                | Some err =>
                    _ ← emit (IOLog ErrorLevel
                                "integration/loracloud: geolocation error" (Some err));
                    mret None
                | None => mret None
                end
            | None => mret None
            end
        end
    end
  else mret None.

(** ** Observations on a run *)

(** A run that starts with an empty trace, so that the trace of the final
    world lists exactly the calls of the run ([framed] below shows that
    nothing is lost: no function reads the trace). *)
Definition freshWorld (m : gmap (list byte) (list (list UplinkRXInfo) * Z)) : World :=
  {| kv := m; trace := [] |}.

Definition framed {A : Type} (m : M A) : Prop :=
  ∀ w,
    m w = (let '(a, w') := m (freshWorld (kv w)) in
           (a, {| kv := kv w'; trace := trace w ++ trace w' |})).

(** The calls a run adds to the trace of the world it starts from. *)
Definition callsOf {A : Type} (run : M A) (w : World) : list IO :=
  drop (length (trace w)) (trace (run w).2).

Inductive Strategy : Type := GNSS | WIFI | TDOA | RSSI.

#[global] Instance Strategy_eq_dec : EqDecision Strategy.
Proof. solve_decision. Defined.

Definition strategyOf (call : ResolverCall) : Strategy :=
  match call with
  | GNSSLR1110SingleFrame _ _ _ => GNSS
  | WifiTDOASingleFrame _ _ => WIFI
  | TDOASingleFrame _ | TDOAMultiFrame _ => TDOA
  | RSSISingleFrame _ | RSSIMultiFrame _ => RSSI
  end.

(** The buffered frames a TDOA or RSSI call carries to the resolver. *)
Definition framesOf (call : ResolverCall) : list (list UplinkRXInfo) :=
  match call with
  | TDOASingleFrame f | RSSISingleFrame f => [f]
  | TDOAMultiFrame b | RSSIMultiFrame b => b
  | GNSSLR1110SingleFrame _ _ _ | WifiTDOASingleFrame _ _ => []
  end.

Definition resolverCalls (t : list IO) : list ResolverCall :=
  omap (fun e => match e with IOResolver _ _ c => Some c | _ => None end) t.

(** The strategies attempted: one entry per resolver call. *)
Definition attempted (t : list IO) : list Strategy := strategyOf <$> resolverCalls t.

Definition locationEvents (t : list IO) : list LocationEvent :=
  omap (fun e => match e with IOHandleLocationEvent _ ev => Some ev | _ => None end) t.

Definition savedBuffers (t : list IO) : list (list (list UplinkRXInfo)) :=
  omap (fun e => match e with IOSaveGeolocBuffer _ items _ => Some items | _ => None end) t.

Definition storeCalls (t : list IO) : list IO :=
  List.filter
    (fun e => match e with
              | IOGetGeolocBuffer _ _ | IOSaveGeolocBuffer _ _ _ => true
              | _ => false
              end) t.

Definition isLog (e : IO) : bool :=
  match e with IOLog _ _ _ => true | _ => false end.

(** The event [HandleUplinkEvent] builds for the sink. *)
Definition locationEventOf (pl : UplinkEvent) (loc : Location)
    (uplinkIDs : list (list byte)) : LocationEvent :=
  {| LApplicationId := ApplicationId pl;
     LApplicationName := ApplicationName pl;
     LDeviceName := DeviceName pl;
     LDevEui := DevEui pl;
     LTags := Tags pl;
     LLocation := loc;
     LUplinkIds := uplinkIDs;
     LFCnt := if Z.of_nat (length uplinkIDs) =? 0 then FCnt pl else 0 |}.

(** The in-order flattening of the uplink ids of a sequence of frames. *)
Definition flatUplinkIDs (frames : list (list UplinkRXInfo)) : list (list byte) :=
  concat (map (map UplinkId) frames).

(** ** The selection rule as the specification states it

    Section 4.5: a strategy qualifies when it is enabled and its data
    precondition is met; the first that qualifies, in the order GNSS, WiFi,
    TDOA, RSSI, wins. *)

Definition qualifies (env : Env) (c : Config) (buffer : list (list UplinkRXInfo))
    (pl : UplinkEvent) (s : Strategy) : bool :=
  match s with
  | GNSS =>
      GeolocationGNSS c &&
      match getBytesFromJSONObject env (GeolocationGNSSPayloadField c) (ObjectJson pl) with
      | (blob, None) => negb (Z.of_nat (length blob) =? 0)
      | (_, Some _) => false
      end
  | WIFI =>
      GeolocationWifi c &&
      match getWifiAccessPointsFromJSONObject env
              (GeolocationWifiPayloadField c) (ObjectJson pl) with
      | (aps, None) => negb (Z.of_nat (length aps) =? 0)
      | (_, Some _) => false
      end
  | TDOA =>
      GeolocationTDOA c &&
      (Z.max 1 (GeolocationMinBufferSize c)
         <=? Z.of_nat (length (filterOnFineTimestamp buffer 3)))
  | RSSI =>
      GeolocationRSSI c &&
      (Z.max 1 (GeolocationMinBufferSize c) <=? Z.of_nat (length buffer))
  end.

Definition priorityOrder : list Strategy := [GNSS; WIFI; TDOA; RSSI].

Definition firstQualifying (env : Env) (c : Config) (buffer : list (list UplinkRXInfo))
    (pl : UplinkEvent) : option Strategy :=
  List.find (qualifies env c buffer pl) priorityOrder.

(** The extractor that is run on the uplink and returns an error, if any:
    the GNSS extractor runs when GNSS is enabled; the WiFi extractor runs
    when WiFi is enabled and the GNSS block neither returned nor called
    the resolver. *)
Definition failedExtractor (env : Env) (c : Config) (pl : UplinkEvent) : option Strategy :=
  let wifi :=
    if GeolocationWifi c then
      match getWifiAccessPointsFromJSONObject env
              (GeolocationWifiPayloadField c) (ObjectJson pl) with
      | (_, Some _) => Some WIFI
      | (_, None) => None
      end
    else None in
  if GeolocationGNSS c then
    match getBytesFromJSONObject env (GeolocationGNSSPayloadField c) (ObjectJson pl) with
    | (_, Some _) => Some GNSS
    | (blob, None) => if Z.of_nat (length blob) =? 0 then wifi else None
    end
  else wifi.

(** ** The decision of the orchestrator

    What a block of [geolocation] comes to: it gives up because its
    extractor returned an error, it makes one resolver call (and has the
    uplink ids to return with the answer), or it leaves the decision to the
    next block.  [geolocation_run] below proves that the code does what
    [plan] says. *)

Inductive Plan : Type :=
  | GiveUp (s : Strategy) (err : error)
  | Call (call : ResolverCall) (uplinkIDs : list (list byte))
  | Idle.

Definition tdoaCall (frames : list (list UplinkRXInfo)) : ResolverCall :=
  match frames with
  | [frame] => TDOASingleFrame frame
  | _ => TDOAMultiFrame frames
  end.

Definition rssiCall (frames : list (list UplinkRXInfo)) : ResolverCall :=
  match frames with
  | [frame] => RSSISingleFrame frame
  | _ => RSSIMultiFrame frames
  end.

Definition gnssPlan (env : Env) (c : Config) (pl : UplinkEvent) : Plan :=
  if GeolocationGNSS c then
    match getBytesFromJSONObject env (GeolocationGNSSPayloadField c) (ObjectJson pl) with
    | (_, Some err) => GiveUp GNSS err
    | (gnssPL, None) =>
        if Z.of_nat (length gnssPL) =? 0 then Idle
        else Call (GNSSLR1110SingleFrame (RxInfo pl) (GeolocationGNSSUseRxTime c) gnssPL) []
    end
  else Idle.

Definition wifiPlan (env : Env) (c : Config) (pl : UplinkEvent) : Plan :=
  if GeolocationWifi c then
    match getWifiAccessPointsFromJSONObject env
            (GeolocationWifiPayloadField c) (ObjectJson pl) with
    | (_, Some err) => GiveUp WIFI err
    | (wifiAPs, None) =>
        if Z.of_nat (length wifiAPs) =? 0 then Idle
        else Call (WifiTDOASingleFrame (RxInfo pl) wifiAPs) []
    end
  else Idle.

Definition tdoaPlan (c : Config) (geolocBuffer : list (list UplinkRXInfo)) : Plan :=
  if GeolocationTDOA c then
    let tdoaFiltered := filterOnFineTimestamp geolocBuffer 3 in
    if (Z.of_nat (length tdoaFiltered) =? 0)
       || (Z.of_nat (length tdoaFiltered) <? GeolocationMinBufferSize c) then Idle
    else Call (tdoaCall tdoaFiltered) (collectUplinkIDs tdoaFiltered)
  else Idle.

Definition rssiPlan (c : Config) (geolocBuffer : list (list UplinkRXInfo)) : Plan :=
  if GeolocationRSSI c then
    if (Z.of_nat (length geolocBuffer) =? 0)
       || (Z.of_nat (length geolocBuffer) <? GeolocationMinBufferSize c) then Idle
    else Call (rssiCall geolocBuffer) (collectUplinkIDs geolocBuffer)
  else Idle.

Definition orPlan (p next : Plan) : Plan :=
  match p with Idle => next | _ => p end.

Definition plan (env : Env) (c : Config) (geolocBuffer : list (list UplinkRXInfo))
    (pl : UplinkEvent) : Plan :=
  orPlan (gnssPlan env c pl)
    (orPlan (wifiPlan env c pl)
       (orPlan (tdoaPlan c geolocBuffer) (rssiPlan c geolocBuffer))).

(** What the wrapper of strategy [s] makes of the resolver's answer. *)
Definition outcome (s : Strategy) (answer : Location * option error)
  : option Location * option error :=
  match answer with
  | (loc, None) => (Some loc, None)
  | (loc, Some err) =>
      if decide (err = ErrNoLocation) then (None, None)
      else match s with
           | WIFI => (Some loc, None)
           | _ => (None, Some (Wrap err "geolocation error"))
           end
  end.

Definition plannedCalls (p : Plan) : list ResolverCall :=
  match p with Call call _ => [call] | _ => [] end.

Definition plannedResult (env : Env) (p : Plan)
  : list (list byte) * option Location * option error :=
  match p with
  | Call call uplinkIDs =>
      let '(loc, err) := outcome (strategyOf call) (resolver env call) in
      (uplinkIDs, loc, err)
  | _ => ([], None, None)
  end.

(** What a block returns: nothing when it leaves the decision to the
    next block. *)
Definition blockResult (env : Env) (p : Plan)
  : option (list (list byte) * option Location * option error) :=
  match p with Idle => None | _ => Some (plannedResult env p) end.

(** A piece of trace without store calls and location events. *)
Definition quiet (t : list IO) : Prop :=
  locationEvents t = [] ∧ storeCalls t = [].

(** A run from [w] to [w'] that leaves the store alone and adds to the
    trace the resolver calls [calls] and otherwise only log lines and
    metrics (only log lines when there is no call). *)
Definition adds (calls : list ResolverCall) (w w' : World) : Prop :=
  kv w' = kv w
  ∧ ∃ d, trace w' = trace w ++ d
         ∧ resolverCalls d = calls
         ∧ quiet d
         ∧ (calls = [] → forallb isLog d = true).

(** An entry of the access-point list that the WiFi extractor can read:
    an object whose [macAddress] is a string that decodes to [bytes] (of
    any length) and whose [signalStrength] is the number [ss]. *)
Definition readableEntry (env : Env) (x : JSON) (bytes : list byte) (ss : float64) : Prop :=
  ∃ vvv bssid,
    x = JObject vvv
    ∧ vvv !! "macAddress" = Some (JString bssid)
    ∧ base64_DecodeString env bssid = inr bytes
    ∧ vvv !! "signalStrength" = Some (JNumber ss).

(** ** The update protocol as the specification states it

    Section 4.2: read the existing buffer under the configured TTL
    ([storedFrames]); if the current frame has three receptions or more,
    append it. *)

Definition nextBuffer (old : list (list UplinkRXInfo)) (frame : list UplinkRXInfo)
  : list (list UplinkRXInfo) :=
  if decide (3 ≤ length frame)%nat then old ++ [frame] else old.

(** ** Three rules in the words of the specification

    Sections 4.4, 4.5 and 8 read an extractor failure as "no extractable
    input", after which the remaining strategies are tried.  The three
    statements below say so; the scenarios at the end of the file show
    that the orchestrator does not meet them on an uplink whose extractor
    fails. *)

(** Section 4.4 and 7: when the extractor of GNSS or WiFi fails, the
    handler succeeds, the failing strategy is not attempted, and the
    strategies after it are evaluated as usual, so that the first of them
    that qualifies is attempted. *)
Definition spec_extractor_failure_falls_through (env : Env) (i : Integration)
    (vars : gmap string string) (pl : UplinkEvent) (w : World) : Prop :=
  let devEUI := copy_array 8 (DevEui pl) in
  let ttl := seconds (GeolocationBufferTTL (config i)) in
  let buffer := nextBuffer (storedFrames (kv w) devEUI ttl) (RxInfo pl) in
  let t := callsOf (HandleUplinkEvent env i vars pl) w in
  ∀ s, failedExtractor env (config i) pl = Some s →
       (HandleUplinkEvent env i vars pl w).1 = None
       ∧ (s ∉ attempted t)
       ∧ attempted t = option_list (firstQualifying env (config i) buffer pl).

(** Section 4.5: the first strategy that qualifies is the one attempted,
    and the only one. *)
Definition spec_first_qualifying_wins (env : Env) (i : Integration) (devEUI : list byte)
    (buffer : list (list UplinkRXInfo)) (pl : UplinkEvent) (w : World) : Prop :=
  attempted (callsOf (geolocation env i devEUI buffer pl) w)
  = option_list (firstQualifying env (config i) buffer pl).

(** Section 4.5 and 8 (3): TDOA is attempted iff it is enabled, no
    strategy before it fires and the filtered buffer has [max 1 k] frames;
    RSSI likewise on the unfiltered buffer. *)
Definition spec_min_buffer_gating (env : Env) (i : Integration) (devEUI : list byte)
    (buffer : list (list UplinkRXInfo)) (pl : UplinkEvent) (w : World) : Prop :=
  let t := attempted (callsOf (geolocation env i devEUI buffer pl) w) in
  let k := GeolocationMinBufferSize (config i) in
  (TDOA ∈ t
   ↔ GeolocationTDOA (config i) = true ∧ (GNSS ∉ t) ∧ (WIFI ∉ t)
     ∧ Z.max 1 k ≤ Z.of_nat (length (filterOnFineTimestamp buffer 3)))
  ∧ (RSSI ∈ t
     ↔ GeolocationRSSI (config i) = true ∧ (GNSS ∉ t) ∧ (WIFI ∉ t) ∧ (TDOA ∉ t)
       ∧ Z.max 1 k ≤ Z.of_nat (length buffer)).

(** ** The store over time *)

(** Every stored buffer is non-empty, holds frames of three receptions
    or more, and was written under a positive TTL. *)
Definition bufferInv (m : gmap (list byte) (list (list UplinkRXInfo) * Z)) : Prop :=
  ∀ devEUI items ttl,
    m !! devEUI = Some (items, ttl) →
    items ≠ [] ∧ Forall (fun frame => (3 ≤ length frame)%nat) items ∧ 0 < ttl.

(** The store changes when an uplink is handled (by any integration
    instance, in any environment) and when an entry expires. *)
Inductive store_step : World → World → Prop :=
  | step_uplink env i vars pl w :
      store_step w (HandleUplinkEvent env i vars pl w).2
  | step_expire devEUI w :
      store_step w {| kv := delete devEUI (kv w); trace := trace w |}.

Definition reachable (w : World) : Prop := rtc store_step (freshWorld ∅) w.

(** ** Scenarios

    The fixtures of [loracloud_test.go] (three gateways, uplink ids 1, 2
    and 3), and stand-ins for the collaborators that answer from tables. *)

Module Scenario.

Definition dq : string := String (Ascii.ascii_of_nat 34) EmptyString.
Definition quoted (s : string) : string := dq +:+ s +:+ dq.

Definition f_1_1 : float64 := S754_finite false 2476979795053773 (-51).
Definition f_2_1 : float64 := S754_finite false 4728779608739021 (-51).
Definition f_3_1 : float64 := S754_finite false 6980579422424269 (-51).
Definition f_1_111 : float64 := S754_finite false 5003499186008621 (-52).
Definition f_2_222 : float64 := S754_finite false 5003499186008621 (-51).
Definition f_3_333 : float64 := S754_finite false 1876312194753233 (-49).
Definition f_1_123 : float64 := S754_finite false 5057542381537067 (-52).
Definition f_2_123 : float64 := S754_finite false 2390285502226891 (-50).
Definition f_3_123 : float64 := S754_finite false 3516185409069515 (-50).

Definition antenna : Location :=
  {| Latitude := f_1_111; Longitude := f_2_222; Altitude := f_3_333;
     Source := UNKNOWN; Accuracy := 0 |}.

Definition mkRx (gw : byte) (rssi : Z) (snr : float64) (ts : option Z) : UplinkRXInfo :=
  {| GatewayId := replicate 8 gw; Rssi := rssi; LoraSnr := snr;
     RxLocation := Some antenna;
     FineTimestamp := PlainFineTimestamp <$> ts;
     UplinkId := [gw] |}.

Definition rx1 : UplinkRXInfo := mkRx Byte.x01 1 f_1_1 (Some 111).
Definition rx2 : UplinkRXInfo := mkRx Byte.x02 2 f_2_1 (Some 222).
Definition rx3 : UplinkRXInfo := mkRx Byte.x03 3 f_3_1 (Some 333).
Definition rx3_plain : UplinkRXInfo := mkRx Byte.x03 3 f_3_1 None.
Definition rx4 : UplinkRXInfo := mkRx Byte.x04 1 f_1_1 (Some 444).
Definition rx5 : UplinkRXInfo := mkRx Byte.x05 2 f_2_1 (Some 555).
Definition rx6 : UplinkRXInfo := mkRx Byte.x06 3 f_3_1 (Some 666).

Definition devEUI : list byte :=
  [Byte.x01; Byte.x02; Byte.x03; Byte.x04; Byte.x05; Byte.x06; Byte.x07; Byte.x08].

Definition uplink (rxInfo : list UplinkRXInfo) (objectJson : string) : UplinkEvent :=
  {| ApplicationId := 1; ApplicationName := "test-app"; DeviceName := "test-device";
     DevEui := devEUI; RxInfo := rxInfo; FCnt := 10; ObjectJson := objectJson;
     Tags := ∅ |}.

Definition resolved (src : LocationSource) : Location :=
  {| Latitude := f_1_123; Longitude := f_2_123; Altitude := f_3_123;
     Source := src; Accuracy := 10 |}.

(** [common.Location{}], what the client returns next to an error. *)
Definition zeroLocation : Location :=
  {| Latitude := S754_zero false; Longitude := S754_zero false;
     Altitude := S754_zero false; Source := UNKNOWN; Accuracy := 0 |}.

(** The object documents of the scenarios. *)
Definition gnssJson : string :=
  "{" +:+ quoted "lr1110_gnss" +:+ ": " +:+ quoted "AQID" +:+ "}".
Definition otherFieldJson : string :=
  "{" +:+ quoted "different_field" +:+ ": " +:+ quoted "AQID" +:+ "}".
Definition gnssBadBase64Json : string :=
  "{" +:+ quoted "lr1110_gnss" +:+ ": " +:+ quoted "***" +:+ "}".
Definition wifiNotAListJson : string :=
  "{" +:+ quoted "wifi_aps" +:+ ": " +:+ quoted "AQID" +:+ "}".
Definition truncatedJson : string := "{".

Definition apJson (mac : string) (ss : float64) : JSON :=
  JObject (<["macAddress" := JString mac]> {["signalStrength" := JNumber ss]}).

Definition apText (mac ss : string) : string :=
  "{" +:+ quoted "macAddress" +:+ ": " +:+ quoted mac +:+ ", "
      +:+ quoted "signalStrength" +:+ ": " +:+ ss +:+ "}".

Definition wifiJson : string :=
  "{" +:+ quoted "wifi_aps" +:+ ": ["
      +:+ apText "AQEBAQEB" "-10" +:+ ", "
      +:+ apText "AgICAgIC" "-20" +:+ ", "
      +:+ apText "AwMDAwMD" "-30" +:+ "]}".

(** Two access points whose MAC blobs have two and eight bytes. *)
Definition wifiOddMacJson : string :=
  "{" +:+ quoted "wifi_aps" +:+ ": ["
      +:+ apText "AQI=" "-10" +:+ ", "
      +:+ apText "AQIDBAUGBwg=" "-20" +:+ "]}".

Definition wifiAPsValue : JSON :=
  JArray [apJson "AQEBAQEB" (S754_finite true 5 1);
          apJson "AgICAgIC" (S754_finite true 5 2);
          apJson "AwMDAwMD" (S754_finite true 15 1)].

Definition wifiOddMacValue : JSON :=
  JArray [apJson "AQI=" (S754_finite true 5 1);
          apJson "AQIDBAUGBwg=" (S754_finite true 5 2)].

(** A table in place of [json.Unmarshal]: the documents above, anything
    else is a syntax error. *)
Definition unmarshal (s : string) : error + gmap string JSON :=
  if decide (s = gnssJson) then inr {["lr1110_gnss" := JString "AQID"]}
  else if decide (s = otherFieldJson) then inr {["different_field" := JString "AQID"]}
  else if decide (s = gnssBadBase64Json) then inr {["lr1110_gnss" := JString "***"]}
  else if decide (s = wifiNotAListJson) then inr {["wifi_aps" := JString "AQID"]}
  else if decide (s = wifiJson) then inr {["wifi_aps" := wifiAPsValue]}
  else if decide (s = wifiOddMacJson) then inr {["wifi_aps" := wifiOddMacValue]}
  else inl (External "unexpected end of JSON input").

Definition b (n : N) : byte := default Byte.x00 (Byte.of_N n).

(** A table in place of [base64.StdEncoding.DecodeString]. *)
Definition decodeBase64 (s : string) : error + list byte :=
  if decide (s = "AQID") then inr [b 1; b 2; b 3]
  else if decide (s = "AQEBAQEB") then inr (replicate 6 (b 1))
  else if decide (s = "AgICAgIC") then inr (replicate 6 (b 2))
  else if decide (s = "AwMDAwMD") then inr (replicate 6 (b 3))
  else if decide (s = "AQI=") then inr [b 1; b 2]
  else if decide (s = "AQIDBAUGBwg=") then inr [b 1; b 2; b 3; b 4; b 5; b 6; b 7; b 8]
  else inl (External "illegal base64 data at input byte 0").

(** An environment in which the store works, the sink accepts, and the
    resolver answers every call with [answer]. *)
Definition env (answer : Location * option error) : Env :=
  {| json_Unmarshal := unmarshal;
     base64_DecodeString := decodeBase64;
     store_get_fault := None;
     store_save_fault := None;
     resolver := fun _ => answer;
     sink_HandleLocationEvent := fun _ => None |}.

Definition withSinkError (e : Env) (err : error) : Env :=
  {| json_Unmarshal := json_Unmarshal e;
     base64_DecodeString := base64_DecodeString e;
     store_get_fault := store_get_fault e;
     store_save_fault := store_save_fault e;
     resolver := resolver e;
     sink_HandleLocationEvent := fun _ => Some err |}.

Definition noConfig : Config :=
  {| Geolocation := false; GeolocationToken := "";
     GeolocationBufferTTL := 0; GeolocationMinBufferSize := 0;
     GeolocationTDOA := false; GeolocationRSSI := false;
     GeolocationGNSS := false; GeolocationGNSSPayloadField := "";
     GeolocationGNSSUseRxTime := false;
     GeolocationWifi := false; GeolocationWifiPayloadField := "" |}.

(** [{geolocation, gnss, wifi, tdoa, rssi}] with the payload fields of
    the test suite, switched on one by one. *)
Definition conf (gnss wifi tdoa rssi : bool) (minBuffer ttl : Z) : Config :=
  {| Geolocation := true; GeolocationToken := "";
     GeolocationBufferTTL := ttl; GeolocationMinBufferSize := minBuffer;
     GeolocationTDOA := tdoa; GeolocationRSSI := rssi;
     GeolocationGNSS := gnss; GeolocationGNSSPayloadField := "lr1110_gnss";
     GeolocationGNSSUseRxTime := false;
     GeolocationWifi := wifi; GeolocationWifiPayloadField := "wifi_aps" |}.

Definition integration (c : Config) : Integration := (New c).1.

(** The access points of [wifiJson] and of [wifiOddMacJson]. *)
Definition wifiAPs : list WifiAccessPoint :=
  [ {| MacAddress := replicate 6 (b 1); SignalStrength := -10 |};
    {| MacAddress := replicate 6 (b 2); SignalStrength := -20 |};
    {| MacAddress := replicate 6 (b 3); SignalStrength := -30 |} ].

Definition oddMacBlobs : list (list byte * float64) :=
  [ ([b 1; b 2], S754_finite true 5 1);
    ([b 1; b 2; b 3; b 4; b 5; b 6; b 7; b 8], S754_finite true 5 2) ].

(** The resolver is down: every call returns a transport error next to
    an empty location. *)
Definition requestError : error := External "request error".
Definition resolverDown : Env := env (zeroLocation, Some requestError).

(** The resolver has no fix. *)
Definition noFix : Env := env (zeroLocation, Some ErrNoLocation).

(** The resolver answers. *)
Definition answering (src : LocationSource) : Env := env (resolved src, None).

Definition frame123 : list UplinkRXInfo := [rx1; rx2; rx3].
Definition frame456 : list UplinkRXInfo := [rx4; rx5; rx6].

(** The reception of a gateway that encrypts its fine timestamps: the
    oneof holds an [EncryptedFineTimestamp], there is no nanosecond value. *)
Definition encrypted (rx : UplinkRXInfo) : UplinkRXInfo :=
  {| GatewayId := GatewayId rx; Rssi := Rssi rx; LoraSnr := LoraSnr rx;
     RxLocation := RxLocation rx;
     FineTimestamp :=
       Some (EncryptedFineTimestamp 0 [Byte.xa1; Byte.xa2; Byte.xa3; Byte.xa4] [Byte.x0f]);
     UplinkId := UplinkId rx |}.

Definition frameEncrypted : list UplinkRXInfo :=
  [encrypted rx1; encrypted rx2; encrypted rx3].

(** The world after a first uplink with the frame 4, 5, 6 was handled
    with [{geolocation, tdoa, min_buffer_size: 2, buffer_ttl: 60}]. *)
Definition afterFirstUplink : World :=
  (HandleUplinkEvent (answering GEO_RESOLVER_TDOA)
     (integration (conf false false true false 2 60)) ∅
     (uplink frame456 "") (freshWorld ∅)).2.


End Scenario.

(** ** The other operations of the integration *)

(** The handlers of the other event kinds, [DataDownChan] and [Close]: the
    payload [pl] (of the event's own type) is not looked at. *)
Definition HandleJoinEvent {P : Type} (i : Integration) (vars : gmap string string)
    (pl : P) : M (option error) := mret None.

Definition HandleAckEvent {P : Type} (i : Integration) (vars : gmap string string)
    (pl : P) : M (option error) := mret None.

Definition HandleErrorEvent {P : Type} (i : Integration) (vars : gmap string string)
    (pl : P) : M (option error) := mret None.

Definition HandleStatusEvent {P : Type} (i : Integration) (vars : gmap string string)
    (pl : P) : M (option error) := mret None.

Definition HandleLocationEvent (i : Integration) (vars : gmap string string)
    (pl : LocationEvent) : M (option error) := mret None.

Definition HandleTxAckEvent {P : Type} (i : Integration) (vars : gmap string string)
    (pl : P) : M (option error) := mret None.

(** [DataDownChan] returns the nil channel. *)
Definition DataDownChan {Chan : Type} (i : Integration) : option Chan := None.

Definition Close (i : Integration) : option error := None.

(** ** More observations *)

(** The environment with another sink, and with other decoders. *)
Definition withSink (env : Env) (sink : LocationEvent → option error) : Env :=
  {| json_Unmarshal := json_Unmarshal env;
     base64_DecodeString := base64_DecodeString env;
     store_get_fault := store_get_fault env;
     store_save_fault := store_save_fault env;
     resolver := resolver env;
     sink_HandleLocationEvent := sink |}.

Definition withDecoders (env : Env) (unmarshal : string → error + gmap string JSON)
    (decode : string → error + list byte) : Env :=
  {| json_Unmarshal := unmarshal;
     base64_DecodeString := decode;
     store_get_fault := store_get_fault env;
     store_save_fault := store_save_fault env;
     resolver := resolver env;
     sink_HandleLocationEvent := sink_HandleLocationEvent env |}.

(** The labels under which durations are observed. *)
Definition observations (t : list IO) : list string :=
  omap (fun e => match e with IOObserve label => Some label | _ => None end) t.

Definition durationLabels : list string :=
  ["v2_tdoa_single"; "v2_tdoa_multi"; "v2_rssi_single"; "v2_rssi_multi";
   "v3_gnss_rl1110_single"; "v2_wifi_tdoa_single"].

(** A call that leaves the package with the settings of the integration
    and the identity of the uplink: the store is addressed by the padded
    device id and the configured TTL, the resolver by the URI and the token
    of the integration, the sink gets the variables as they came and an
    event with the identity fields of the uplink, and durations are
    observed under one of the six labels. *)
Definition usesSettings (i : Integration) (vars : gmap string string) (pl : UplinkEvent)
    (e : IO) : Prop :=
  match e with
  | IOGetGeolocBuffer devEUI ttl | IOSaveGeolocBuffer devEUI _ ttl =>
      devEUI = copy_array 8 (DevEui pl)
      ∧ ttl = seconds (GeolocationBufferTTL (config i))
  | IOResolver uri token _ =>
      uri = geolocationURI i ∧ token = GeolocationToken (config i)
  | IOHandleLocationEvent vars' ev =>
      vars' = vars
      ∧ LApplicationId ev = ApplicationId pl
      ∧ LApplicationName ev = ApplicationName pl
      ∧ LDeviceName ev = DeviceName pl
      ∧ LDevEui ev = DevEui pl
      ∧ LTags ev = Tags pl
  | IOObserve label => In label durationLabels
  | IOLog _ _ _ => True
  end.

(** The labels under which the wrappers observe the duration of a
    resolver call, given what the resolver answers to it. *)
Definition observedLabels (env : Env) (call : ResolverCall) : list string :=
  match call with
  | TDOASingleFrame _ => ["v2_tdoa_single"]
  | TDOAMultiFrame _ => ["v2_tdoa_multi"]
  | RSSISingleFrame _ => ["v2_rssi_single"]
  | RSSIMultiFrame _ => ["v2_rssi_multi"]
  | GNSSLR1110SingleFrame _ _ _ =>
      match (resolver env call).2 with
      | None => ["v3_gnss_rl1110_single"]
      | Some _ => []
      end
  | WifiTDOASingleFrame _ _ =>
      match (resolver env call).2 with
      | Some err => if decide (err = ErrNoLocation) then [] else ["v2_wifi_tdoa_single"]
      | None => ["v2_wifi_tdoa_single"]
      end
  end.

(** A piece of trace in which every call uses the settings and the
    durations observed are those of its resolver calls. *)
Definition accounted (env : Env) (i : Integration) (vars : gmap string string)
    (pl : UplinkEvent) (d : list IO) : Prop :=
  Forall (usesSettings i vars pl) d
  ∧ observations d = resolverCalls d ≫= observedLabels env.

(** A run that adds to the trace a piece that satisfies [Q]. *)
Definition emits {A : Type} (Q : list IO → Prop) (run : M A) : Prop :=
  ∀ w, ∃ d, trace (run w).2 = trace w ++ d ∧ Q d.

(** The number of receptions in a sequence of frames. *)
Definition receptions (frames : list (list UplinkRXInfo)) : nat :=
  length (concat frames).

(** * Properties *)

(** ** The loops are the list functions *)

Lemma filter_loop_inner (frame acc : list UplinkRXInfo) :
  fold_left (fun f rx => if hasFineTimestamp rx then f ++ [rx] else f) frame acc
  = acc ++ List.filter hasFineTimestamp frame.
Proof.
  revert acc; induction frame as [|rx frame IH]; intros acc; simpl.
  - by rewrite app_nil_r.
  - rewrite IH. destruct (hasFineTimestamp rx); [|done].
    by rewrite <- app_assoc.
Qed.

Lemma filter_loop_outer (minPerFrame : Z) (buffer acc : list (list UplinkRXInfo)) :
  fold_left
    (fun out frame =>
       let f := fold_left
                  (fun f rx => if hasFineTimestamp rx then f ++ [rx] else f)
                  frame [] in
       if Z.of_nat (length f) >=? minPerFrame then out ++ [f] else out)
    buffer acc
  = acc ++ keptFrames buffer minPerFrame.
Proof.
  unfold keptFrames.
  revert acc; induction buffer as [|frame buffer IH]; intros acc; simpl.
  - by rewrite app_nil_r.
  - rewrite IH, filter_loop_inner; simpl. rewrite Z.geb_leb.
    destruct (minPerFrame <=? _); [|done].
    by rewrite <- app_assoc.
Qed.

Lemma collect_loop_inner (frame : list UplinkRXInfo) (acc : list (list byte)) :
  fold_left (fun uplinkIDs rx => uplinkIDs ++ [UplinkId rx]) frame acc
  = acc ++ map UplinkId frame.
Proof.
  revert acc; induction frame as [|rx frame IH]; intros acc; simpl.
  - by rewrite app_nil_r.
  - by rewrite IH, <- app_assoc.
Qed.

Lemma collectUplinkIDs_flat (frames : list (list UplinkRXInfo)) :
  collectUplinkIDs frames = flatUplinkIDs frames.
Proof.
  unfold collectUplinkIDs, flatUplinkIDs.
  cut (∀ acc, fold_left
                (fun uplinkIDs frame =>
                   fold_left (fun uplinkIDs rx => uplinkIDs ++ [UplinkId rx]) frame uplinkIDs)
                frames acc = acc ++ concat (map (map UplinkId) frames)).
  { intros H; apply (H []). }
  induction frames as [|frame frames IH]; intros acc; simpl.
  - by rewrite app_nil_r.
  - by rewrite IH, collect_loop_inner, <- app_assoc.
Qed.

Lemma filterOnFineTimestamp_keptFrames (buffer : list (list UplinkRXInfo)) (minPerFrame : Z) :
  filterOnFineTimestamp buffer minPerFrame
  = keptFrames buffer minPerFrame.
Proof. unfold filterOnFineTimestamp. by rewrite filter_loop_outer. Qed.

Lemma plain_or_encrypted rx :
  hasFineTimestamp rx = hasPlainFineTimestamp rx || hasEncryptedFineTimestamp rx.
Proof.
  unfold hasFineTimestamp, hasPlainFineTimestamp, hasEncryptedFineTimestamp.
  by destruct (FineTimestamp rx) as [[]|].
Qed.

Lemma filter_ext_Forall {A} (f g : A → bool) (l : list A) :
  Forall (fun x => f x = g x) l → List.filter f l = List.filter g l.
Proof.
  induction 1 as [|x l Hx _ IH]; [done|]. cbn. by rewrite Hx, IH.
Qed.

Lemma filter_all_true {A} (f : A → bool) (l : list A) :
  Forall (fun x => f x = true) l → List.filter f l = l.
Proof.
  induction 1 as [|x l Hx _ IH]; [done|]. cbn. by rewrite Hx, IH.
Qed.

(** C7 is not met by the code.  What the code does: it keeps, in each
    frame, the receptions whose fine-timestamp oneof is set, be it to a
    plain or to an encrypted timestamp, drops every frame left with fewer
    than [minPerFrame] of them and keeps the order.  On a buffer without
    encrypted timestamps this is the filter of the specification.  But a
    frame whose receptions all carry an encrypted timestamp (so that none
    has a nanosecond value) and that has [minPerFrame] receptions or more
    passes the filter of the code whole, where the specification retains
    none of its receptions and drops it. *)
Theorem filterOnFineTimestamp_keeps_encrypted
    (buffer : list (list UplinkRXInfo)) (minPerFrame : Z) :
  filterOnFineTimestamp buffer minPerFrame
  = List.filter (fun f => minPerFrame <=? Z.of_nat (length f))
      (map (List.filter
              (fun rx => hasPlainFineTimestamp rx || hasEncryptedFineTimestamp rx))
         buffer)
  ∧ (Forall (Forall (fun rx => hasEncryptedFineTimestamp rx = false)) buffer →
     filterOnFineTimestamp buffer minPerFrame
     = spec_filter_on_fine_timestamp buffer minPerFrame)
  ∧ (∀ frame,
       In frame buffer →
       Forall (fun rx => hasEncryptedFineTimestamp rx = true) frame →
       0 < minPerFrame ≤ Z.of_nat (length frame) →
       In frame (filterOnFineTimestamp buffer minPerFrame)
       ∧ ¬ In frame (spec_filter_on_fine_timestamp buffer minPerFrame)).
Proof.
  rewrite filterOnFineTimestamp_keptFrames. unfold keptFrames, spec_filter_on_fine_timestamp.
  split; [|split].
  - f_equal. apply map_ext. intros frame. apply filter_ext_Forall, Forall_forall.
    intros rx _. apply plain_or_encrypted.
  - intros Hplain. f_equal. apply map_ext_in. intros frame Hin.
    apply filter_ext_Forall.
    apply Forall_forall with (x := frame) in Hplain; [|by apply list_elem_of_In].
    eapply Forall_impl; [exact Hplain|]. cbn. intros rx Hrx.
    by rewrite plain_or_encrypted, Hrx, orb_false_r.
  - intros frame Hin Henc [Hpos Hlen]. split.
    + apply filter_In. split; [|by apply Z.leb_le].
      apply in_map_iff. exists frame. split; [|done].
      apply filter_all_true. eapply Forall_impl; [exact Henc|]. cbn. intros rx Hrx.
      by rewrite plain_or_encrypted, Hrx, orb_true_r.
    + intros Hspec. apply filter_In in Hspec as [Hmap _].
      apply in_map_iff in Hmap as (frame' & Heq & _).
      destruct frame as [|rx frame]; [cbn in Hlen; lia|].
      apply Forall_cons in Henc as [Hrx _].
      assert (In rx (List.filter hasPlainFineTimestamp frame')) as Hrx'.
      { rewrite Heq. by left. }
      apply filter_In in Hrx' as [_ Hp].
      unfold hasPlainFineTimestamp, hasEncryptedFineTimestamp in Hp, Hrx.
      by destruct (FineTimestamp rx) as [[]|].
Qed.

(** Consequences used below: what survives the filter with
    [minPerFrame = 3] has at least three receptions per frame. *)
Lemma filterOnFineTimestamp_lengths (buffer : list (list UplinkRXInfo)) (minPerFrame : Z) :
  Forall (fun f => minPerFrame ≤ Z.of_nat (length f))
    (filterOnFineTimestamp buffer minPerFrame).
Proof.
  unfold filterOnFineTimestamp. rewrite filter_loop_outer. apply Forall_forall.
  intros f Hf. apply list_elem_of_In, filter_In in Hf as [_ Hf]. lia.
Qed.

(** ** Runs do not depend on the trace they extend *)

Lemma framed_ret {A} (a : A) : framed (mret a).
Proof. intros [m t]; cbn. by rewrite app_nil_r. Qed.

Lemma framed_emit (e : IO) : framed (emit e).
Proof. by intros [m t]. Qed.

Lemma framed_read_kv : framed read_kv.
Proof. intros [m t]; cbn. by rewrite app_nil_r. Qed.

Lemma framed_write_kv m : framed (write_kv m).
Proof. intros [m' t]; cbn. by rewrite app_nil_r. Qed.

Lemma framed_bind {A B} (m : M A) (f : A → M B) :
  framed m → (∀ a, framed (f a)) → framed (m ≫= f).
Proof.
  intros Hm Hf w. unfold mbind, M_bind.
  rewrite (Hm w). destruct (m (freshWorld (kv w))) as [a w1].
  rewrite (Hf a (Build_World _ _)), (Hf a w1); cbn.
  destruct (f a (freshWorld (kv w1))) as [b' w2]; cbn.
  by rewrite app_assoc.
Qed.

Ltac framed_step :=
  first
    [ apply framed_ret | apply framed_emit | apply framed_read_kv
    | apply framed_write_kv
    | apply framed_bind; [|intros ?]
    | match goal with
      | |- framed (match ?x with _ => _ end) => destruct x
      | |- framed (if ?x then _ else _) => destruct x
      | |- framed (let '(_, _) := ?x in _) => destruct x
      end ].

Ltac solve_framed := repeat framed_step.

Lemma framed_GetGeolocBuffer env devEUI ttl : framed (GetGeolocBuffer env devEUI ttl).
Proof. unfold GetGeolocBuffer. solve_framed. Qed.

Lemma framed_SaveGeolocBuffer env devEUI items ttl :
  framed (SaveGeolocBuffer env devEUI items ttl).
Proof. unfold SaveGeolocBuffer. solve_framed. Qed.

Lemma framed_updateGeolocBuffer env i devEUI pl :
  framed (updateGeolocBuffer env i devEUI pl).
Proof.
  unfold updateGeolocBuffer.
  apply framed_bind; [apply framed_GetGeolocBuffer|]. intros [buf [err|]]; [solve_framed|].
  destruct (negb _); [|solve_framed].
  apply framed_bind; [apply framed_SaveGeolocBuffer|]. intros [err|]; solve_framed.
Qed.

Lemma framed_callResolver env i call : framed (callResolver env i call).
Proof. unfold callResolver. solve_framed. Qed.

Lemma framed_geolocation env i devEUI geolocBuffer pl :
  framed (geolocation env i devEUI geolocBuffer pl).
Proof.
  pose proof (framed_callResolver env i).
  unfold geolocation, orElse, gnssBlock, wifiBlock, tdoaBlock, rssiBlock,
    gnssLR1110Geolocation, wifiTDOAGeolocation, tdoaGeolocation, rssiGeolocation.
  repeat first [ done | framed_step ].
Qed.

Lemma framed_HandleUplinkEvent env i vars pl : framed (HandleUplinkEvent env i vars pl).
Proof.
  unfold HandleUplinkEvent. destruct (Geolocation _); [|solve_framed].
  apply framed_bind; [apply framed_updateGeolocBuffer|]. intros [buf [err|]]; [solve_framed|].
  apply framed_bind; [apply framed_geolocation|]. intros [[ids loc] err].
  solve_framed.
Qed.

(** ** What a run of the orchestrator does *)

Lemma adds_refl w : adds [] w w.
Proof. split; [done|]. exists []. by rewrite app_nil_r. Qed.

Lemma resolverCalls_app t1 t2 :
  resolverCalls (t1 ++ t2) = resolverCalls t1 ++ resolverCalls t2.
Proof. apply omap_app. Qed.

Lemma locationEvents_app t1 t2 :
  locationEvents (t1 ++ t2) = locationEvents t1 ++ locationEvents t2.
Proof. apply omap_app. Qed.

Lemma storeCalls_app t1 t2 : storeCalls (t1 ++ t2) = storeCalls t1 ++ storeCalls t2.
Proof. apply List.filter_app. Qed.

Lemma quiet_app t1 t2 : quiet t1 → quiet t2 → quiet (t1 ++ t2).
Proof.
  intros [H1 H2] [H3 H4]. split.
  - by rewrite locationEvents_app, H1, H3.
  - by rewrite storeCalls_app, H2, H4.
Qed.

Lemma adds_trans c1 c2 w w1 w2 :
  adds c1 w w1 → adds c2 w1 w2 → adds (c1 ++ c2) w w2.
Proof.
  intros [Hk1 (d1 & Ht1 & Hc1 & Hq1 & Hl1)] [Hk2 (d2 & Ht2 & Hc2 & Hq2 & Hl2)].
  split; [congruence|]. exists (d1 ++ d2). repeat split.
  - by rewrite Ht2, Ht1, app_assoc.
  - by rewrite resolverCalls_app, Hc1, Hc2.
  - by apply quiet_app.
  - by apply quiet_app.
  - intros [-> ->]%app_eq_nil. rewrite forallb_app, Hl1, Hl2; done.
Qed.

Lemma adds_emit_log lvl msg err w : adds [] w (emit (IOLog lvl msg err) w).2.
Proof. split; [done|]. by exists [IOLog lvl msg err]. Qed.

Ltac adds_now :=
  split; [done | eexists; split; [rewrite <- ?app_assoc; reflexivity | done]].

Lemma gnssLR1110Geolocation_run env i devEUI rxInfo pl w :
  let call := GNSSLR1110SingleFrame rxInfo (GeolocationGNSSUseRxTime (config i)) pl in
  let r := gnssLR1110Geolocation env i devEUI rxInfo pl w in
  r.1 = outcome GNSS (resolver env call) ∧ adds [call] w r.2.
Proof.
  unfold gnssLR1110Geolocation, callResolver, outcome, mbind, M_bind, emit, mret, M_ret.
  cbn. destruct (resolver env _) as [loc [err|]]; [destruct (decide _)|]; cbn;
    (split; [done | adds_now]).
Qed.

Lemma wifiTDOAGeolocation_run env i devEUI rxInfo aps w :
  let call := WifiTDOASingleFrame rxInfo aps in
  let r := wifiTDOAGeolocation env i devEUI rxInfo aps w in
  r.1 = outcome WIFI (resolver env call) ∧ adds [call] w r.2.
Proof.
  unfold wifiTDOAGeolocation, callResolver, outcome, mbind, M_bind, emit, mret, M_ret.
  cbn. destruct (resolver env _) as [loc [err|]];
    [unfold bool_decide; destruct (decide_rel _ _ _); destruct (decide _)|]; cbn;
    try done; (split; [done | adds_now]).
Qed.

Lemma tdoaGeolocation_run env i devEUI frames w :
  let call := tdoaCall frames in
  let r := tdoaGeolocation env i devEUI frames w in
  r.1 = outcome TDOA (resolver env call) ∧ adds [call] w r.2.
Proof.
  unfold tdoaGeolocation, tdoaCall, callResolver, outcome, mbind, M_bind, emit, mret, M_ret.
  destruct frames as [|f [|g frames]]; cbn;
    (destruct (resolver env _) as [loc [err|]]; [destruct (decide _)|]; cbn;
     (split; [done | adds_now])).
Qed.

Lemma rssiGeolocation_run env i devEUI frames w :
  let call := rssiCall frames in
  let r := rssiGeolocation env i devEUI frames w in
  r.1 = outcome RSSI (resolver env call) ∧ adds [call] w r.2.
Proof.
  unfold rssiGeolocation, rssiCall, callResolver, outcome, mbind, M_bind, emit, mret, M_ret.
  destruct frames as [|f [|g frames]]; cbn;
    (destruct (resolver env _) as [loc [err|]]; [destruct (decide _)|]; cbn;
     (split; [done | adds_now])).
Qed.

Lemma gnssBlock_run env i devEUI pl w :
  let p := gnssPlan env (config i) pl in
  let r := gnssBlock env i devEUI pl w in
  r.1 = blockResult env p ∧ adds (plannedCalls p) w r.2.
Proof.
  unfold gnssBlock, gnssPlan.
  destruct (GeolocationGNSS _); [|split; [done | apply adds_refl]].
  destruct (getBytesFromJSONObject _ _ _) as [gnssPL [err|]].
  { split; [done | apply adds_emit_log]. }
  destruct (Z.of_nat (length gnssPL) =? 0).
  { split; [done | apply adds_emit_log]. }
  unfold mbind, M_bind.
  destruct (gnssLR1110Geolocation_run env i devEUI (RxInfo pl) gnssPL w) as [H1 H2].
  destruct (gnssLR1110Geolocation _ _ _ _ _ _) as [[loc err] w']; cbn in *.
  by rewrite <- H1.
Qed.

Lemma wifiBlock_run env i devEUI pl w :
  let p := wifiPlan env (config i) pl in
  let r := wifiBlock env i devEUI pl w in
  r.1 = blockResult env p ∧ adds (plannedCalls p) w r.2.
Proof.
  unfold wifiBlock, wifiPlan.
  destruct (GeolocationWifi _); [|split; [done | apply adds_refl]].
  destruct (getWifiAccessPointsFromJSONObject _ _ _) as [wifiAPs [err|]].
  { split; [done | apply adds_emit_log]. }
  destruct (Z.of_nat (length wifiAPs) =? 0).
  { split; [done | apply adds_emit_log]. }
  unfold mbind, M_bind.
  destruct (wifiTDOAGeolocation_run env i devEUI (RxInfo pl) wifiAPs w) as [H1 H2].
  destruct (wifiTDOAGeolocation _ _ _ _ _ _) as [[loc err] w']; cbn in *.
  by rewrite <- H1.
Qed.

Lemma strategyOf_tdoaCall frames : strategyOf (tdoaCall frames) = TDOA.
Proof. by destruct frames as [|f [|g frames]]. Qed.

Lemma strategyOf_rssiCall frames : strategyOf (rssiCall frames) = RSSI.
Proof. by destruct frames as [|f [|g frames]]. Qed.

Lemma tdoaBlock_run env i devEUI geolocBuffer w :
  let p := tdoaPlan (config i) geolocBuffer in
  let r := tdoaBlock env i devEUI geolocBuffer w in
  r.1 = blockResult env p ∧ adds (plannedCalls p) w r.2.
Proof.
  unfold tdoaBlock, tdoaPlan.
  destruct (GeolocationTDOA _); [|split; [done | apply adds_refl]].
  cbv zeta. destruct (_ || _).
  { split; [done | apply adds_emit_log]. }
  unfold mbind, M_bind.
  destruct (tdoaGeolocation_run env i devEUI (filterOnFineTimestamp geolocBuffer 3) w)
    as [H1 H2].
  destruct (tdoaGeolocation _ _ _ _ _) as [[loc err] w']; cbn in *.
  by rewrite strategyOf_tdoaCall, <- H1.
Qed.

Lemma rssiBlock_run env i devEUI geolocBuffer w :
  let p := rssiPlan (config i) geolocBuffer in
  let r := rssiBlock env i devEUI geolocBuffer w in
  r.1 = blockResult env p ∧ adds (plannedCalls p) w r.2.
Proof.
  unfold rssiBlock, rssiPlan.
  destruct (GeolocationRSSI _); [|split; [done | apply adds_refl]].
  destruct (_ || _).
  { split; [done | apply adds_emit_log]. }
  unfold mbind, M_bind.
  destruct (rssiGeolocation_run env i devEUI geolocBuffer w) as [H1 H2].
  destruct (rssiGeolocation _ _ _ _ _) as [[loc err] w']; cbn in *.
  by rewrite strategyOf_rssiCall, <- H1.
Qed.

Lemma orElse_run env block next p q w :
  (let r := block w in r.1 = blockResult env p ∧ adds (plannedCalls p) w r.2) →
  (∀ w1, let r := next w1 in
         r.1 = plannedResult env q ∧ adds (plannedCalls q) w1 r.2) →
  let r := orElse block next w in
  r.1 = plannedResult env (orPlan p q) ∧ adds (plannedCalls (orPlan p q)) w r.2.
Proof.
  intros [H1 H2] Hnext. unfold orElse, mbind, M_bind.
  destruct (block w) as [r1 w1]; cbn in *.
  destruct p; cbn in *; subst r1; cbn; try done.
  destruct (Hnext w1) as [H3 H4]. split; [done|].
  by apply (adds_trans [] _ w w1).
Qed.

Lemma orPlan_Idle p : orPlan p Idle = p.
Proof. by destruct p. Qed.

(** The orchestrator does what [plan] says, from any world. *)
Lemma geolocation_adds env i devEUI geolocBuffer pl w :
  let p := plan env (config i) geolocBuffer pl in
  let r := geolocation env i devEUI geolocBuffer pl w in
  r.1 = plannedResult env p ∧ adds (plannedCalls p) w r.2.
Proof.
  unfold geolocation, plan.
  rewrite <- (orPlan_Idle (rssiPlan _ _)).
  apply orElse_run; [apply gnssBlock_run|]. intros w1.
  apply orElse_run; [apply wifiBlock_run|]. intros w2.
  apply orElse_run; [apply tdoaBlock_run|]. intros w3.
  apply orElse_run; [apply rssiBlock_run|]. intros w4.
  split; [done | apply adds_refl].
Qed.

Lemma geolocation_run env i devEUI geolocBuffer pl m :
  let p := plan env (config i) geolocBuffer pl in
  let r := geolocation env i devEUI geolocBuffer pl (freshWorld m) in
  r.1 = plannedResult env p
  ∧ kv r.2 = m
  ∧ resolverCalls (trace r.2) = plannedCalls p
  ∧ quiet (trace r.2)
  ∧ (plannedCalls p = [] → forallb isLog (trace r.2) = true).
Proof.
  destruct (geolocation_adds env i devEUI geolocBuffer pl (freshWorld m))
    as (H1 & H2 & d & H3 & H4 & H5 & H6).
  cbn in *. rewrite H3. done.
Qed.

(** ** What a run of the buffer update does *)

Lemma updateGeolocBuffer_run env i devEUI pl w :
  let ttl := seconds (GeolocationBufferTTL (config i)) in
  let new := nextBuffer (storedFrames (kv w) devEUI ttl) (RxInfo pl) in
  let get := IOGetGeolocBuffer devEUI ttl in
  let save := IOSaveGeolocBuffer devEUI new ttl in
  updateGeolocBuffer env i devEUI pl w =
    match store_get_fault env with
    | Some err =>
        (([], Some (Wrap err "get geoloc buffer error")),
         {| kv := kv w; trace := trace w ++ [get] |})
    | None =>
        match new with
        | [] => ((new, None), {| kv := kv w; trace := trace w ++ [get] |})
        | _ =>
            match store_save_fault env with
            | Some err =>
                (([], Some (Wrap err "save geoloc buffer error")),
                 {| kv := kv w; trace := trace w ++ [get; save] |})
            | None =>
                ((new, None),
                 {| kv := storeFrames (kv w) devEUI new ttl;
                    trace := trace w ++ [get; save] |})
            end
        end
    end.
Proof.
  unfold updateGeolocBuffer, GetGeolocBuffer, SaveGeolocBuffer, nextBuffer,
    mbind, M_bind, mret, M_ret, emit, read_kv, write_kv.
  cbn. destruct (store_get_fault env) as [err|]; cbn; [done|].
  set (old := storedFrames (kv w) devEUI _).
  assert ((if Z.of_nat (length (RxInfo pl)) >=? 3 then old ++ [RxInfo pl] else old)
          = (if decide (3 ≤ length (RxInfo pl))%nat then old ++ [RxInfo pl] else old)) as ->.
  { destruct (decide _); destruct (Z.geb_spec (Z.of_nat (length (RxInfo pl))) 3);
      try done; lia. }
  set (new := if decide _ then _ else _).
  destruct new as [|f new]; cbn; [done|].
  assert ((Z.of_nat (S (length new)) =? 0) = false) as -> by (apply Z.eqb_neq; lia).
  destruct (store_save_fault env); cbn; by rewrite <- ?app_assoc.
Qed.

Lemma updateGeolocBuffer_trace env i devEUI pl m :
  let u := updateGeolocBuffer env i devEUI pl (freshWorld m) in
  storeCalls (trace u.2) = trace u.2
  ∧ resolverCalls (trace u.2) = []
  ∧ locationEvents (trace u.2) = [].
Proof.
  cbv zeta. rewrite updateGeolocBuffer_run.
  destruct (store_get_fault env); [done|].
  destruct (nextBuffer _ _); [done|].
  by destruct (store_save_fault env).
Qed.

(** ** What a run of the handler does *)

Lemma HandleUplinkEvent_disabled env i vars pl w :
  Geolocation (config i) = false → HandleUplinkEvent env i vars pl w = (None, w).
Proof. intros H. unfold HandleUplinkEvent. by rewrite H. Qed.

Lemma HandleUplinkEvent_update_error env i vars pl w err :
  Geolocation (config i) = true →
  (updateGeolocBuffer env i (copy_array 8 (DevEui pl)) pl w).1.2 = Some err →
  HandleUplinkEvent env i vars pl w
  = (Some (Wrap err "update geolocation buffer error"),
     (updateGeolocBuffer env i (copy_array 8 (DevEui pl)) pl w).2).
Proof.
  intros H Hu. unfold HandleUplinkEvent, mbind, M_bind. rewrite H.
  destruct (updateGeolocBuffer _ _ _ _ _) as [[buf e] w1]; cbn in *. by subst e.
Qed.

(** The handler after a successful buffer update, in terms of the
    decision of the orchestrator. *)
Lemma HandleUplinkEvent_fresh env i vars pl m geolocBuffer :
  let devEUI := copy_array 8 (DevEui pl) in
  let u := updateGeolocBuffer env i devEUI pl (freshWorld m) in
  let p := plan env (config i) geolocBuffer pl in
  let r := HandleUplinkEvent env i vars pl (freshWorld m) in
  Geolocation (config i) = true →
  u.1 = (geolocBuffer, None) →
  r.1 = match (plannedResult env p).2 with
        | Some err => Some (Wrap err "geolocation error")
        | None => None
        end
  ∧ kv r.2 = kv u.2
  ∧ storeCalls (trace r.2) = trace u.2
  ∧ resolverCalls (trace r.2) = plannedCalls p
  ∧ locationEvents (trace r.2)
    = match plannedResult env p with
      | (uplinkIDs, Some loc, None) => [locationEventOf pl loc uplinkIDs]
      | _ => []
      end.
Proof.
  intros devEUI u p r H Hu. subst r. unfold HandleUplinkEvent, mbind, M_bind.
  rewrite H. fold devEUI.
  destruct (updateGeolocBuffer_trace env i devEUI pl m) as (Hs & Hr & Hl).
  fold u in Hs, Hr, Hl |- *. destruct u as [[buf e] w1]; cbn in *.
  simplify_eq.
  destruct (geolocation_adds env i devEUI geolocBuffer pl w1)
    as (H1 & H2 & d & H3 & H4 & [H5 H6] & _).
  fold p in H1, H4.
  destruct (geolocation _ _ _ _ _ _) as [[[ids loc] e] w2]; cbn in *.
  rewrite <- H1; cbn.
  destruct e as [e|]; cbn.
  { rewrite H3, storeCalls_app, resolverCalls_app, locationEvents_app.
    rewrite Hs, Hr, Hl, H4, H5, H6. rewrite app_nil_r. by destruct loc. }
  destruct loc as [loc|]; cbn.
  2:{ rewrite H3, storeCalls_app, resolverCalls_app, locationEvents_app.
      rewrite Hs, Hr, Hl, H4, H5, H6. by rewrite app_nil_r. }
  destruct (sink_HandleLocationEvent env _); cbn;
    rewrite H3, !storeCalls_app, !resolverCalls_app, !locationEvents_app;
    rewrite Hs, Hr, Hl, H4, H5, H6; cbn; by rewrite ?app_nil_r.
Qed.

Lemma HandleUplinkEvent_kv env i vars pl w :
  kv (HandleUplinkEvent env i vars pl w).2
  = if Geolocation (config i)
    then kv (updateGeolocBuffer env i (copy_array 8 (DevEui pl)) pl w).2
    else kv w.
Proof.
  unfold HandleUplinkEvent, mbind, M_bind.
  destruct (Geolocation _); [|done].
  destruct (updateGeolocBuffer _ _ _ _ _) as [[buf [e|]] w1]; [done|].
  destruct (geolocation_adds env i (copy_array 8 (DevEui pl)) buf pl w1) as (_ & H2 & _).
  destruct (geolocation _ _ _ _ _ _) as [[[ids loc] [e|]] w2]; cbn in *; [done|].
  destruct loc; [|done]. by destruct (sink_HandleLocationEvent _ _).
Qed.

(** ** The stored buffers *)

Lemma updateGeolocBuffer_kv env i devEUI pl w :
  let ttl := seconds (GeolocationBufferTTL (config i)) in
  let new := nextBuffer (storedFrames (kv w) devEUI ttl) (RxInfo pl) in
  let kv' := kv (updateGeolocBuffer env i devEUI pl w).2 in
  kv' = kv w
  ∨ (new ≠ [] ∧ kv' = storeFrames (kv w) devEUI new ttl).
Proof.
  cbv zeta. rewrite updateGeolocBuffer_run.
  destruct (store_get_fault env); [by left|].
  destruct (nextBuffer _ _) eqn:Hn; [by left|].
  destruct (store_save_fault env); [by left|]. by right.
Qed.

Lemma storedFrames_inv m devEUI ttl :
  bufferInv m → Forall (fun frame => (3 ≤ length frame)%nat) (storedFrames m devEUI ttl).
Proof.
  intros Hinv. unfold storedFrames. destruct (0 <? ttl); [|done].
  destruct (m !! devEUI) as [[items ttl0]|] eqn:Hm; [|done].
  by destruct (Hinv _ _ _ Hm) as (_ & ? & _).
Qed.

Lemma nextBuffer_inv old frame :
  Forall (fun frame => (3 ≤ length frame)%nat) old →
  Forall (fun frame => (3 ≤ length frame)%nat) (nextBuffer old frame).
Proof.
  intros Hold. unfold nextBuffer. destruct (decide _); [|done].
  apply Forall_app; split; [done|]. by apply Forall_singleton.
Qed.

Lemma bufferInv_insert m devEUI items ttl :
  bufferInv m → items ≠ [] → Forall (fun frame => (3 ≤ length frame)%nat) items →
  0 < ttl →
  bufferInv (<[devEUI := (items, ttl)]> m).
Proof.
  intros Hinv Hne Hall Httl dev items' ttl'.
  destruct (decide (devEUI = dev)) as [->|Hdev].
  - rewrite lookup_insert_eq. by intros [= <- <-].
  - rewrite lookup_insert_ne by done. apply Hinv.
Qed.

Lemma bufferInv_delete m devEUI : bufferInv m → bufferInv (delete devEUI m).
Proof.
  intros Hinv dev items ttl Hl.
  apply lookup_delete_Some in Hl as [_ Hl]. by apply (Hinv dev items ttl).
Qed.

Lemma store_step_inv w w' : store_step w w' → bufferInv (kv w) → bufferInv (kv w').
Proof.
  intros [env i vars pl w0 | devEUI w0] Hinv; cbn.
  - rewrite HandleUplinkEvent_kv. destruct (Geolocation _); [|done].
    destruct (updateGeolocBuffer_kv env i (copy_array 8 (DevEui pl)) pl w0)
      as [-> | [Hne ->]]; [done|].
    unfold storeFrames.
    destruct (Z.ltb_spec 0 (seconds (GeolocationBufferTTL (config i))));
      [|by apply bufferInv_delete].
    apply bufferInv_insert; [done.. | | done].
    by apply nextBuffer_inv, storedFrames_inv.
  - by apply bufferInv_delete.
Qed.

Lemma reachable_inv w : reachable w → bufferInv (kv w).
Proof.
  unfold reachable. revert w.
  apply (rtc_ind_r (fun w => bufferInv (kv w))).
  - intros dev items ttl Hl. cbn in Hl. by rewrite lookup_empty in Hl.
  - intros w1 w2 _ Hstep IH. by apply (store_step_inv w1 w2).
Qed.

Lemma frames_unchanged m devEUI (ttl : Z) :
  storedFrames m devEUI ttl ≠ [] →
  fst <$> storeFrames m devEUI (storedFrames m devEUI ttl) ttl = fst <$> m.
Proof.
  unfold storedFrames, storeFrames. intros Hne.
  destruct (0 <? ttl); [|done].
  destruct (m !! devEUI) as [[items ttl0]|] eqn:Hm; [|done].
  rewrite fmap_insert. apply insert_id. by rewrite lookup_fmap, Hm.
Qed.

Lemma short_frame_keeps_frames env i devEUI pl w :
  (length (RxInfo pl) < 3)%nat →
  fst <$> kv (updateGeolocBuffer env i devEUI pl w).2 = fst <$> kv w.
Proof.
  intros Hlen.
  destruct (updateGeolocBuffer_kv env i devEUI pl w) as [-> | [Hne ->]]; [done|].
  revert Hne. unfold nextBuffer. destruct (decide _); [lia|].
  intros Hne. by apply frames_unchanged.
Qed.

(** C6: what the buffer update does on every uplink, also when the store
    fails.  It reads the buffer under the configured TTL and arrives at the
    frames read, with the frame of the uplink appended exactly when it has
    three receptions or more.  If the read fails it returns the read error
    and does nothing else.  If the sequence it arrives at is empty it
    returns it and does not call [SaveGeolocBuffer].  If it is not empty it
    calls [SaveGeolocBuffer] with it and with the configured TTL (so the
    write is made exactly when the read succeeded and the sequence is
    non-empty): when the write fails the store is as before and the write
    error is returned; when it succeeds the sequence is returned, and the
    store holds it under the new TTL.  Hence, in every store state
    reachable from the empty store by handled uplinks and expiries, each
    stored buffer is non-empty, made of frames of three receptions or more,
    and kept under a positive TTL; and an uplink with fewer than three
    receptions leaves the frames of every device as they were. *)
Theorem buffer_update_protocol env i vars pl m :
  let devEUI := copy_array 8 (DevEui pl) in
  let ttl := seconds (GeolocationBufferTTL (config i)) in
  let old := storedFrames m devEUI ttl in
  let buf := if decide (3 ≤ length (RxInfo pl))%nat then old ++ [RxInfo pl] else old in
  let get := IOGetGeolocBuffer devEUI ttl in
  let save := IOSaveGeolocBuffer devEUI buf ttl in
  let u := updateGeolocBuffer env i devEUI pl (freshWorld m) in
  (∀ c, store_get_fault env = Some c →
        u = (([], Some (Wrap c "get geoloc buffer error")), {| kv := m; trace := [get] |}))
  ∧ (store_get_fault env = None → buf = [] →
     u = (([], None), {| kv := m; trace := [get] |}))
  ∧ (∀ c, store_get_fault env = None → buf ≠ [] → store_save_fault env = Some c →
          u = (([], Some (Wrap c "save geoloc buffer error")),
               {| kv := m; trace := [get; save] |}))
  ∧ (store_get_fault env = None → buf ≠ [] → store_save_fault env = None →
     u = ((buf, None), {| kv := storeFrames m devEUI buf ttl; trace := [get; save] |})
     ∧ (0 < ttl → kv u.2 !! devEUI = Some (buf, ttl)))
  ∧ (savedBuffers (trace u.2) ≠ [] ↔ store_get_fault env = None ∧ buf ≠ [])
  ∧ (∀ w, reachable w → bufferInv (kv w))
  ∧ (∀ w, (length (RxInfo pl) < 3)%nat →
          fst <$> kv (HandleUplinkEvent env i vars pl w).2 = fst <$> kv w).
Proof.
  intros devEUI ttl old buf get save u.
  assert (Hrun := updateGeolocBuffer_run env i devEUI pl (freshWorld m)).
  cbv zeta in Hrun. fold u ttl in Hrun. cbn [kv trace freshWorld app] in Hrun.
  fold old in Hrun. unfold nextBuffer in Hrun. fold buf get in Hrun. fold save in Hrun.
  split; [|split; [|split; [|split; [|split; [|split]]]]].
  - intros c Hc. by rewrite Hrun, Hc.
  - intros Hg Hb. by rewrite Hrun, Hg, Hb.
  - intros c Hg Hb Hs. rewrite Hrun, Hg, Hs. by destruct buf.
  - intros Hg Hb Hs. rewrite Hrun, Hg, Hs. destruct buf as [|f buf']; [done|].
    split; [done|]. intros Httl. cbn.
    unfold storeFrames. destruct (Z.ltb_spec 0 ttl); [|lia].
    by rewrite lookup_insert_eq.
  - rewrite Hrun. destruct (store_get_fault env); [cbn; intuition congruence|].
    destruct buf; [cbn; intuition congruence|].
    destruct (store_save_fault env); cbn; intuition congruence.
  - apply reachable_inv.
  - intros w Hlen. rewrite HandleUplinkEvent_kv.
    destruct (Geolocation _); [|done]. by apply short_frame_keeps_frames.
Qed.

(** ** The facade *)

(** The handler, step by step: the buffer update, then the orchestrator,
    then the sink. *)
Lemma HandleUplinkEvent_steps env i vars pl w :
  let devEUI := copy_array 8 (DevEui pl) in
  let u := updateGeolocBuffer env i devEUI pl w in
  let g := geolocation env i devEUI u.1.1 pl u.2 in
  HandleUplinkEvent env i vars pl w
  = if Geolocation (config i) then
      match u.1.2 with
      | Some err => (Some (Wrap err "update geolocation buffer error"), u.2)
      | None =>
          match g.1 with
          | (_, _, Some err) => (Some (Wrap err "geolocation error"), g.2)
          | (uplinkIDs, Some loc, None) =>
              let ev := locationEventOf pl loc uplinkIDs in
              (None,
               {| kv := kv g.2;
                  trace :=
                    trace g.2 ++
                    IOHandleLocationEvent vars ev ::
                    match sink_HandleLocationEvent env ev with
                    | Some err =>
                        [IOLog ErrorLevel "integration/loracloud: geolocation error"
                           (Some err)]
                    | None => []
                    end |})
          | (_, None, None) => (None, g.2)
          end
      end
    else (None, w).
Proof.
  cbv zeta. unfold HandleUplinkEvent, mbind, M_bind, mret, M_ret, emit.
  destruct (Geolocation _); [|done].
  destruct (updateGeolocBuffer _ _ _ _ _) as [[buf [e|]] w1]; cbn; [done|].
  destruct (geolocation _ _ _ _ _ _) as [[[ids [loc|]] [e|]] w2]; cbn; try done.
  unfold locationEventOf.
  destruct (sink_HandleLocationEvent env _); cbn; [|done].
  by rewrite <- app_assoc.
Qed.

(** C9: with the master flag off, [HandleUplinkEvent] returns success at
    once and leaves the world as it found it: the trace gains no buffer
    read or write, no resolver call and no location event, and the store
    is untouched. *)
Theorem geolocation_disabled_is_inert env i vars pl w :
  Geolocation (config i) = false →
  HandleUplinkEvent env i vars pl w = (None, w).
Proof. intros H. by rewrite HandleUplinkEvent_steps, H. Qed.

Lemma geolocation_disabled_is_inert_witness :
  Geolocation (config (Scenario.integration Scenario.noConfig)) = false
  ∧ HandleUplinkEvent (Scenario.env (Scenario.resolved GEO_RESOLVER_TDOA, None))
      (Scenario.integration Scenario.noConfig) ∅
      (Scenario.uplink [Scenario.rx1; Scenario.rx2; Scenario.rx3] "")
      (freshWorld ∅)
    = (None, freshWorld ∅).
Proof.
  split; [reflexivity|].
  apply (geolocation_disabled_is_inert
           (Scenario.env (Scenario.resolved GEO_RESOLVER_TDOA, None))
           (Scenario.integration Scenario.noConfig)).
  reflexivity.
Defined.

(** ** The WiFi extractor *)

Lemma copy_array_length n src : length (copy_array n src) = n.
Proof.
  unfold copy_array. rewrite length_app, length_take, length_replicate. lia.
Qed.

(** Byte [k] of the array is byte [k] of the source when there is one,
    and zero otherwise. *)
Lemma copy_array_lookup n src k :
  (k < n)%nat → copy_array n src !! k = Some (nth k src Byte.x00).
Proof.
  intros Hk. unfold copy_array. rewrite nth_lookup.
  destruct (src !! k) as [x|] eqn:Hx; cbn.
  - apply lookup_lt_Some in Hx as Hlen.
    rewrite lookup_app_l by (rewrite length_take; lia).
    by rewrite lookup_take_lt.
  - apply lookup_ge_None in Hx.
    rewrite lookup_app_r by (rewrite length_take; lia).
    rewrite length_take. apply lookup_replicate. split; [done|lia].
Qed.

Lemma wifiAccessPointsLoop_readable env entries decoded out :
  Forall2 (fun x d => readableEntry env x d.1 d.2) entries decoded →
  wifiAccessPointsLoop env entries out
  = (out ++ map (fun d => {| MacAddress := copy_array 6 d.1;
                             SignalStrength := float64_to_int d.2 |}) decoded,
     None).
Proof.
  intros H. revert out.
  induction H as [|x [bytes ss] entries decoded (vvv & bssid & -> & Hm & Hb & Hs) _ IH];
    intros out; cbn.
  - by rewrite app_nil_r.
  - rewrite Hm, Hb, Hs, IH. by rewrite <- app_assoc.
Qed.

(** C10: the WiFi extractor does not check that a [macAddress] decodes
    to six bytes.  Whenever every entry of the list is readable, whatever
    the lengths [n] of the decoded blobs, extraction succeeds, and in each
    access point the MAC has six bytes: byte [k] is byte [k] of the blob
    for [k < min n 6] and zero for the remaining positions, so a shorter
    blob is zero-padded and a longer one is cut after six bytes. *)
Theorem wifi_mac_length_not_validated env field jsonStr v entries
    (decoded : list (list byte * float64)) :
  jsonStr ≠ "" →
  json_Unmarshal env jsonStr = inr v →
  v !! field = Some (JArray entries) →
  Forall2 (fun x d => readableEntry env x d.1 d.2) entries decoded →
  ∃ aps,
    getWifiAccessPointsFromJSONObject env field jsonStr = (aps, None)
    ∧ Forall2
        (fun d ap =>
           SignalStrength ap = float64_to_int d.2
           ∧ length (MacAddress ap) = 6%nat
           ∧ (∀ k, (k < Nat.min (length d.1) 6)%nat → MacAddress ap !! k = d.1 !! k)
           ∧ (∀ k, (Nat.min (length d.1) 6 ≤ k < 6)%nat →
                   MacAddress ap !! k = Some Byte.x00))
        decoded aps.
Proof.
  intros Hne Hjson Hfield Hentries.
  exists (map (fun d => {| MacAddress := copy_array 6 d.1;
                           SignalStrength := float64_to_int d.2 |}) decoded).
  split.
  - unfold getWifiAccessPointsFromJSONObject.
    destruct (decide (jsonStr = "")); [done|].
    rewrite Hjson, Hfield. by rewrite (wifiAccessPointsLoop_readable _ _ decoded).
  - apply Forall2_fmap_r, Forall_Forall2_diag, Forall_forall.
    intros [bytes ss] _; cbv beta iota delta [fst snd MacAddress SignalStrength].
    split; [done|]. split; [apply copy_array_length|].
    split; intros k Hk.
    + rewrite copy_array_lookup by lia. rewrite nth_lookup.
      destruct (bytes !! k) eqn:Hb; [done|]. apply lookup_ge_None in Hb. lia.
    + rewrite copy_array_lookup by lia. f_equal. apply nth_overflow. lia.
Qed.

(** ** The decision and the selection rule *)

Lemma not_enough_max (n : nat) (k : Z) :
  (Z.of_nat n =? 0) || (Z.of_nat n <? k) = negb (Z.max 1 k <=? Z.of_nat n).
Proof.
  destruct (Z.eqb_spec (Z.of_nat n) 0), (Z.ltb_spec (Z.of_nat n) k),
    (Z.leb_spec (Z.max 1 k) (Z.of_nat n)); cbn; try done; lia.
Qed.

Lemma framesOf_tdoaCall frames : framesOf (tdoaCall frames) = frames.
Proof. by destruct frames as [|f [|g frames]]. Qed.

Lemma framesOf_rssiCall frames : framesOf (rssiCall frames) = frames.
Proof. by destruct frames as [|f [|g frames]]. Qed.

(** The strategy of the planned call is the first qualifying strategy of
    the specification, unless an extractor that was run failed: then no
    call is planned. *)
Lemma plan_attempted env c geolocBuffer pl :
  strategyOf <$> plannedCalls (plan env c geolocBuffer pl)
  = match failedExtractor env c pl with
    | Some _ => []
    | None => option_list (firstQualifying env c geolocBuffer pl)
    end.
Proof.
  unfold plan, gnssPlan, wifiPlan, tdoaPlan, rssiPlan, failedExtractor,
    firstQualifying, qualifies, priorityOrder.
  rewrite !not_enough_max.
  destruct (GeolocationGNSS c);
    destruct (getBytesFromJSONObject env (GeolocationGNSSPayloadField c) (ObjectJson pl))
      as [blob [e1|]];
    destruct (Z.of_nat (length blob) =? 0);
    destruct (GeolocationWifi c);
    destruct (getWifiAccessPointsFromJSONObject env
                (GeolocationWifiPayloadField c) (ObjectJson pl)) as [aps [e2|]];
    destruct (Z.of_nat (length aps) =? 0);
    destruct (GeolocationTDOA c);
    destruct (Z.max 1 (GeolocationMinBufferSize c)
                <=? Z.of_nat (length (filterOnFineTimestamp geolocBuffer 3)));
    destruct (GeolocationRSSI c);
    destruct (Z.max 1 (GeolocationMinBufferSize c) <=? Z.of_nat (length geolocBuffer));
    cbn; rewrite ?strategyOf_tdoaCall, ?strategyOf_rssiCall; reflexivity.
Qed.

(** What the planned call carries and which uplink ids go with it. *)
Lemma plan_call env c geolocBuffer pl call uplinkIDs :
  plan env c geolocBuffer pl = Call call uplinkIDs →
  match strategyOf call with
  | GNSS | WIFI => uplinkIDs = []
  | TDOA =>
      framesOf call = filterOnFineTimestamp geolocBuffer 3
      ∧ uplinkIDs = flatUplinkIDs (framesOf call)
      ∧ framesOf call ≠ []
  | RSSI =>
      framesOf call = geolocBuffer
      ∧ uplinkIDs = flatUplinkIDs (framesOf call)
      ∧ framesOf call ≠ []
  end.
Proof.
  unfold plan, gnssPlan, wifiPlan, tdoaPlan, rssiPlan.
  assert (∀ frames : list (list UplinkRXInfo),
            (Z.of_nat (length frames) =? 0) = false → frames ≠ []) as Hne.
  { intros frames H ->. done. }
  destruct (GeolocationGNSS c);
    destruct (getBytesFromJSONObject env (GeolocationGNSSPayloadField c) (ObjectJson pl))
      as [blob [e1|]];
    destruct (Z.of_nat (length blob) =? 0);
    destruct (GeolocationWifi c);
    destruct (getWifiAccessPointsFromJSONObject env
                (GeolocationWifiPayloadField c) (ObjectJson pl)) as [aps [e2|]];
    destruct (Z.of_nat (length aps) =? 0);
    destruct (GeolocationTDOA c);
    destruct (Z.of_nat (length (filterOnFineTimestamp geolocBuffer 3)) =? 0) eqn:Ht;
    destruct (Z.of_nat (length (filterOnFineTimestamp geolocBuffer 3))
                <? GeolocationMinBufferSize c);
    destruct (GeolocationRSSI c);
    destruct (Z.of_nat (length geolocBuffer) =? 0) eqn:Hr;
    destruct (Z.of_nat (length geolocBuffer) <? GeolocationMinBufferSize c);
    cbn; intros [= <- <-]; cbn;
    rewrite ?strategyOf_tdoaCall, ?strategyOf_rssiCall,
      ?framesOf_tdoaCall, ?framesOf_rssiCall, ?collectUplinkIDs_flat;
    auto.
Qed.

(** ** The handler seen from outside *)

Lemma framed_result {A} (run : M A) w :
  framed run →
  (run w).1 = (run (freshWorld (kv w))).1
  ∧ kv (run w).2 = kv (run (freshWorld (kv w))).2
  ∧ callsOf run w = trace (run (freshWorld (kv w))).2.
Proof.
  intros H. unfold callsOf. rewrite (H w).
  destruct (run (freshWorld (kv w))) as [a w']; cbn.
  by rewrite drop_app_length.
Qed.

Lemma updateGeolocBuffer_buffer env i devEUI pl m buf :
  (updateGeolocBuffer env i devEUI pl (freshWorld m)).1 = (buf, None) →
  buf = nextBuffer (storedFrames m devEUI (seconds (GeolocationBufferTTL (config i))))
          (RxInfo pl).
Proof.
  rewrite updateGeolocBuffer_run. cbn [kv freshWorld].
  destruct (store_get_fault env); [done|].
  destruct (nextBuffer _ _); [by intros [= <-]|].
  destruct (store_save_fault env); [done|]. by intros [= <-].
Qed.

(** Either geolocation is off and nothing happens; or the buffer update
    fails and the handler stops with its error, having called only the
    store; or the update yields the next buffer and the orchestrator acts
    on its decision. *)
Lemma HandleUplinkEvent_view env i vars pl w :
  let devEUI := copy_array 8 (DevEui pl) in
  let r := HandleUplinkEvent env i vars pl w in
  let t := callsOf (HandleUplinkEvent env i vars pl) w in
  let buf :=
    nextBuffer (storedFrames (kv w) devEUI (seconds (GeolocationBufferTTL (config i))))
      (RxInfo pl) in
  let p := plan env (config i) buf pl in
  (Geolocation (config i) = false ∧ r.1 = None ∧ t = [])
  ∨ (Geolocation (config i) = true
     ∧ (∃ err, r.1 = Some (Wrap err "update geolocation buffer error"))
     ∧ resolverCalls t = [] ∧ locationEvents t = [])
  ∨ (Geolocation (config i) = true
     ∧ r.1 = match (plannedResult env p).2 with
             | Some err => Some (Wrap err "geolocation error")
             | None => None
             end
     ∧ resolverCalls t = plannedCalls p
     ∧ locationEvents t
       = match plannedResult env p with
         | (uplinkIDs, Some loc, None) => [locationEventOf pl loc uplinkIDs]
         | _ => []
         end).
Proof.
  intros devEUI r t buf p.
  destruct (framed_result _ w (framed_HandleUplinkEvent env i vars pl))
    as (Hr & _ & Ht).
  fold r in Hr. fold t in Ht. rewrite Hr, Ht. clear Hr Ht r t.
  destruct (Geolocation (config i)) eqn:Hg.
  2:{ left. by rewrite HandleUplinkEvent_disabled. }
  right.
  destruct (updateGeolocBuffer env i devEUI pl (freshWorld (kv w))) as [[b oe] w1] eqn:Hu.
  destruct oe as [err|].
  - left. rewrite (HandleUplinkEvent_update_error _ _ _ _ _ err Hg)
      by (fold devEUI; by rewrite Hu).
    fold devEUI. cbn.
    destruct (updateGeolocBuffer_trace env i devEUI pl (kv w)) as (_ & H1 & H2).
    rewrite Hu in H1, H2 |- *. split; [done|]. split; [by exists err | done].
  - right.
    assert (b = buf) as ->.
    { apply (updateGeolocBuffer_buffer env i devEUI pl (kv w)). by rewrite Hu. }
    destruct (HandleUplinkEvent_fresh env i vars pl (kv w) buf Hg)
      as (H1 & _ & _ & H2 & H3); [fold devEUI; by rewrite Hu|].
    done.
Qed.

(** ** The resolver wrappers seen from the handler *)

Lemma plannedCalls_inv p call :
  plannedCalls p = [call] → ∃ uplinkIDs, p = Call call uplinkIDs.
Proof. destruct p; cbn; intros [= <-]. eauto. Qed.

(** C1 is not met by the code.  What the code does: on every uplink on
    which the WiFi strategy fires and the resolver call fails with an error
    other than [ErrNoLocation], the handler returns success and hands the
    sink a location event made of the location value that came with the
    error.  (The wrappers of GNSS, TDOA and RSSI return the wrapped error;
    [wifiTDOAGeolocation] lacks that return.) *)
Theorem wifi_resolver_error_is_swallowed env i vars pl w rxInfo aps loc err :
  let t := callsOf (HandleUplinkEvent env i vars pl) w in
  resolverCalls t = [WifiTDOASingleFrame rxInfo aps] →
  resolver env (WifiTDOASingleFrame rxInfo aps) = (loc, Some err) →
  err ≠ ErrNoLocation →
  (HandleUplinkEvent env i vars pl w).1 = None
  ∧ locationEvents t = [locationEventOf pl loc []].
Proof.
  intros t Hcall Hres Herr.
  destruct (HandleUplinkEvent_view env i vars pl w)
    as [(_ & _ & Ht) | [(_ & _ & Ht & _) | (_ & Hr & Ht & Hl)]];
    fold t in Ht; try (rewrite Ht in Hcall; done).
  fold t in Hl. rewrite Hcall in Ht. symmetry in Ht.
  apply plannedCalls_inv in Ht as [ids Hp].
  apply plan_call in Hp as Hids. cbn in Hids. subst ids.
  rewrite Hp in Hr, Hl. cbn in Hr, Hl. rewrite Hres in Hr, Hl. cbn in Hr, Hl.
  destruct (decide (err = ErrNoLocation)); [done|]. done.
Qed.

(** ** Extractor failures *)

Lemma plan_failedExtractor env c geolocBuffer pl s :
  failedExtractor env c pl = Some s →
  ∃ err, plan env c geolocBuffer pl = GiveUp s err.
Proof.
  unfold plan, gnssPlan, wifiPlan, failedExtractor.
  destruct (GeolocationGNSS c);
    destruct (getBytesFromJSONObject env (GeolocationGNSSPayloadField c) (ObjectJson pl))
      as [blob [e1|]];
    destruct (Z.of_nat (length blob) =? 0);
    destruct (GeolocationWifi c);
    destruct (getWifiAccessPointsFromJSONObject env
                (GeolocationWifiPayloadField c) (ObjectJson pl)) as [aps [e2|]];
    cbn; intros [= <-]; eauto.
Qed.

(** C2, as the code has it: when the buffer update has succeeded and the
    extractor of GNSS or WiFi fails, [HandleUplinkEvent] returns success
    and the failing strategy is not attempted; but the orchestrator returns
    there and then, so no strategy at all is attempted on this uplink, and
    no location event is emitted. *)
Theorem extractor_failure_ends_the_evaluation env i vars pl w s :
  let devEUI := copy_array 8 (DevEui pl) in
  let t := callsOf (HandleUplinkEvent env i vars pl) w in
  Geolocation (config i) = true →
  (updateGeolocBuffer env i devEUI pl w).1.2 = None →
  failedExtractor env (config i) pl = Some s →
  (HandleUplinkEvent env i vars pl w).1 = None
  ∧ attempted t = []
  ∧ locationEvents t = [].
Proof.
  intros devEUI t Hg Hu Hs.
  destruct (framed_result _ w (framed_updateGeolocBuffer env i devEUI pl)) as (Hu' & _).
  rewrite Hu' in Hu.
  destruct (plan_failedExtractor env (config i)
              (nextBuffer
                 (storedFrames (kv w) devEUI (seconds (GeolocationBufferTTL (config i))))
                 (RxInfo pl)) pl s Hs) as [err Hp].
  destruct (HandleUplinkEvent_view env i vars pl w)
    as [(Hg' & _) | [(_ & [e He] & _) | (_ & Hr & Ht & Hl)]].
  - congruence.
  - destruct (framed_result _ w (framed_HandleUplinkEvent env i vars pl)) as (Hr & _).
    rewrite Hr in He.
    destruct (updateGeolocBuffer env i devEUI pl (freshWorld (kv w)))
      as [[b oe] w1] eqn:Hupd. cbn in Hu. subst oe.
    pose proof (HandleUplinkEvent_steps env i vars pl (freshWorld (kv w))) as Hst.
    cbv zeta in Hst. fold devEUI in Hst. rewrite Hupd, Hg in Hst. cbn in Hst.
    rewrite Hst in He.
    by destruct (geolocation env i devEUI b pl w1).1 as [[ids [loc|]] [e'|]].
  - fold devEUI t in Hr, Ht, Hl. rewrite Hp in Hr, Ht, Hl. cbn in Hr, Ht, Hl.
    unfold attempted. by rewrite Ht.
Qed.

(** ** Priority and gating *)

Lemma geolocation_calls env i devEUI geolocBuffer pl w :
  let g := geolocation env i devEUI geolocBuffer pl w in
  let t := callsOf (geolocation env i devEUI geolocBuffer pl) w in
  let p := plan env (config i) geolocBuffer pl in
  g.1 = plannedResult env p ∧ resolverCalls t = plannedCalls p ∧ locationEvents t = [].
Proof.
  intros g t p.
  destruct (framed_result _ w (framed_geolocation env i devEUI geolocBuffer pl))
    as (Hr & _ & Ht).
  fold g in Hr. fold t in Ht. rewrite Hr, Ht.
  destruct (geolocation_run env i devEUI geolocBuffer pl (kv w))
    as (H1 & _ & H2 & [H3 _] & _).
  done.
Qed.

Lemma outcome_no_location s loc : outcome s (loc, Some ErrNoLocation) = (None, None).
Proof. unfold outcome. by destruct (decide _). Qed.

(** C3, as the code has it: the strategies are evaluated in the order
    GNSS, WiFi, TDOA, RSSI.  Unless an extractor that is run fails, the
    first strategy that qualifies is attempted and it is the only one; when
    an extractor fails nothing is attempted; in every case a strategy that
    is attempted is the first one that qualifies.  The outcome of the
    attempt is final: when the resolver answers with [ErrNoLocation] the
    orchestrator returns no location and no error without a second
    attempt, the handler returns success and no location event is
    emitted. *)
Theorem strategy_priority env i vars pl w devEUI geolocBuffer :
  let g := geolocation env i devEUI geolocBuffer pl w in
  let t := callsOf (geolocation env i devEUI geolocBuffer pl) w in
  let tH := callsOf (HandleUplinkEvent env i vars pl) w in
  (attempted t
   = match failedExtractor env (config i) pl with
     | Some _ => []
     | None => option_list (firstQualifying env (config i) geolocBuffer pl)
     end)
  ∧ (∀ s, s ∈ attempted t →
          attempted t = [s] ∧ firstQualifying env (config i) geolocBuffer pl = Some s)
  ∧ (∀ call loc,
       call ∈ resolverCalls t → resolver env call = (loc, Some ErrNoLocation) →
       g.1.1.2 = None ∧ g.1.2 = None ∧ resolverCalls t = [call])
  ∧ (∀ call loc,
       call ∈ resolverCalls tH → resolver env call = (loc, Some ErrNoLocation) →
       (HandleUplinkEvent env i vars pl w).1 = None
       ∧ locationEvents tH = [] ∧ resolverCalls tH = [call]).
Proof.
  intros g t tH.
  destruct (geolocation_calls env i devEUI geolocBuffer pl w) as (Hg & Ht & _).
  fold g in Hg. fold t in Ht.
  assert (attempted t
          = match failedExtractor env (config i) pl with
            | Some _ => []
            | None => option_list (firstQualifying env (config i) geolocBuffer pl)
            end) as Hatt.
  { unfold attempted. rewrite Ht. apply plan_attempted. }
  split; [done|]. split; [|split].
  - intros s Hs. rewrite Hatt in Hs |- *.
    destruct (failedExtractor _ _ _); [by apply elem_of_nil in Hs|].
    destruct (firstQualifying _ _ _ _) as [s'|]; cbn in *; [|by apply elem_of_nil in Hs].
    by apply list_elem_of_singleton in Hs as ->.
  - intros call loc Hcall Hres. rewrite Ht in Hcall |- *.
    destruct (plan env (config i) geolocBuffer pl) as [| call' ids |] eqn:Hp;
      cbn in Hcall; try by apply elem_of_nil in Hcall.
    apply list_elem_of_singleton in Hcall as ->.
    rewrite Hg. cbn. by rewrite Hres, outcome_no_location.
  - intros call loc Hcall Hres. clear Hg Ht Hatt.
    pose proof (HandleUplinkEvent_view env i vars pl w) as Hv.
    cbv zeta in Hv. fold tH in Hv.
    set (p := plan env (config i) _ pl) in Hv.
    destruct Hv as [(_ & _ & Hn) | [(_ & _ & Hn & _) | (_ & Hr & Hc & Hl)]];
      try (rewrite Hn in Hcall; by apply elem_of_nil in Hcall).
    rewrite Hc in Hcall |- *. rewrite Hr, Hl.
    destruct p as [| call' ids |];
      cbn in Hcall; try by apply elem_of_nil in Hcall.
    apply list_elem_of_singleton in Hcall as ->.
    cbn. by rewrite Hres, outcome_no_location.
Qed.

Lemma qualifies_TDOA env c geolocBuffer pl :
  qualifies env c geolocBuffer pl TDOA = true
  ↔ GeolocationTDOA c = true
    ∧ Z.max 1 (GeolocationMinBufferSize c)
      ≤ Z.of_nat (length (filterOnFineTimestamp geolocBuffer 3)).
Proof. cbn. by rewrite andb_true_iff, Z.leb_le. Qed.

Lemma qualifies_RSSI env c geolocBuffer pl :
  qualifies env c geolocBuffer pl RSSI = true
  ↔ GeolocationRSSI c = true
    ∧ Z.max 1 (GeolocationMinBufferSize c) ≤ Z.of_nat (length geolocBuffer).
Proof. cbn. by rewrite andb_true_iff, Z.leb_le. Qed.

(** C4, as the code has it: with [geolocation_min_buffer_size = k], TDOA
    is attempted iff it is enabled, no strategy before it fires, no
    extractor that is run fails, and the buffer filtered on three fine
    timestamps per frame has at least [max 1 k] frames; RSSI is attempted
    iff it is enabled, no strategy before it fires, no extractor that is
    run fails, and the unfiltered buffer has at least [max 1 k] frames. *)
Theorem min_buffer_gating env i devEUI geolocBuffer pl w :
  let t := attempted (callsOf (geolocation env i devEUI geolocBuffer pl) w) in
  let k := GeolocationMinBufferSize (config i) in
  (TDOA ∈ t
   ↔ GeolocationTDOA (config i) = true ∧ (GNSS ∉ t) ∧ (WIFI ∉ t)
     ∧ failedExtractor env (config i) pl = None
     ∧ Z.max 1 k ≤ Z.of_nat (length (filterOnFineTimestamp geolocBuffer 3)))
  ∧ (RSSI ∈ t
     ↔ GeolocationRSSI (config i) = true ∧ (GNSS ∉ t) ∧ (WIFI ∉ t) ∧ (TDOA ∉ t)
       ∧ failedExtractor env (config i) pl = None
       ∧ Z.max 1 k ≤ Z.of_nat (length geolocBuffer)).
Proof.
  intros t k.
  destruct (geolocation_calls env i devEUI geolocBuffer pl w) as (_ & Ht & _).
  assert (t = match failedExtractor env (config i) pl with
              | Some _ => []
              | None => option_list (firstQualifying env (config i) geolocBuffer pl)
              end) as ->.
  { subst t. unfold attempted. rewrite Ht. apply plan_attempted. }
  clear Ht.
  pose proof (qualifies_TDOA env (config i) geolocBuffer pl) as HT.
  pose proof (qualifies_RSSI env (config i) geolocBuffer pl) as HR.
  fold k in HT, HR.
  destruct (failedExtractor env (config i) pl) as [s|].
  { rewrite !elem_of_nil. intuition discriminate. }
  unfold firstQualifying, priorityOrder. cbn [List.find].
  destruct (qualifies env (config i) geolocBuffer pl GNSS);
    destruct (qualifies env (config i) geolocBuffer pl WIFI);
    destruct (qualifies env (config i) geolocBuffer pl TDOA);
    destruct (qualifies env (config i) geolocBuffer pl RSSI);
    cbv beta iota delta [option_list option_rect];
    rewrite ?list_elem_of_singleton, ?elem_of_nil;
    intuition (try discriminate; try congruence).
Qed.

(** ** Uplink ids *)

Lemma flatUplinkIDs_length frames :
  frames ≠ [] →
  Forall (fun frame : list UplinkRXInfo => (3 ≤ length frame)%nat) frames →
  (Z.of_nat (length (flatUplinkIDs frames)) =? 0) = false.
Proof.
  intros Hne Hall. destruct frames as [|frame frames]; [done|].
  apply Forall_cons in Hall as [Hlen _].
  unfold flatUplinkIDs. cbn. rewrite length_app, length_map.
  apply Z.eqb_neq. lia.
Qed.

Lemma filtered_frames_have_three geolocBuffer :
  Forall (fun frame : list UplinkRXInfo => (3 ≤ length frame)%nat)
    (filterOnFineTimestamp geolocBuffer 3).
Proof.
  eapply Forall_impl; [apply filterOnFineTimestamp_lengths|].
  cbn. intros frame. lia.
Qed.

(** C5: in every reachable world, when the handler emits a location
    event after a TDOA or RSSI call, the [uplink_ids] of the event are the
    uplink ids of the frames sent to the resolver, frame after frame and
    reception after reception (the buffer filtered on fine timestamps for
    TDOA, the whole buffer for RSSI, where the buffer is made of the frames
    read under the configured TTL, none under a TTL of zero, and of the
    frame of the uplink when it has three receptions or more), and [f_cnt]
    is left at zero; after a GNSS or WiFi call [uplink_ids] is empty and
    [f_cnt] is the [f_cnt] of the uplink. *)
Theorem uplink_ids_propagation env i vars pl w call ev :
  let devEUI := copy_array 8 (DevEui pl) in
  let buffer :=
    nextBuffer (storedFrames (kv w) devEUI (seconds (GeolocationBufferTTL (config i))))
      (RxInfo pl) in
  let t := callsOf (HandleUplinkEvent env i vars pl) w in
  reachable w →
  resolverCalls t = [call] →
  locationEvents t = [ev] →
  match strategyOf call with
  | TDOA =>
      framesOf call = filterOnFineTimestamp buffer 3
      ∧ LUplinkIds ev = flatUplinkIDs (framesOf call)
      ∧ LFCnt ev = 0
  | RSSI =>
      framesOf call = buffer
      ∧ LUplinkIds ev = flatUplinkIDs (framesOf call)
      ∧ LFCnt ev = 0
  | GNSS | WIFI => LUplinkIds ev = [] ∧ LFCnt ev = FCnt pl
  end.
Proof.
  intros devEUI buffer t Hreach Hcall Hev.
  assert (Forall (fun frame : list UplinkRXInfo => (3 ≤ length frame)%nat) buffer) as Hbuf.
  { by apply nextBuffer_inv, storedFrames_inv, reachable_inv. }
  pose proof (HandleUplinkEvent_view env i vars pl w) as Hv.
  cbv zeta in Hv. fold devEUI buffer t in Hv.
  destruct Hv as [(_ & _ & Hn) | [(_ & _ & Hn & _) | (_ & _ & Hc & Hl)]];
    try (rewrite Hn in Hcall; done).
  rewrite Hcall in Hc. symmetry in Hc. apply plannedCalls_inv in Hc as [ids Hp].
  rewrite Hp in Hl. cbn in Hl. rewrite Hev in Hl.
  apply plan_call in Hp.
  destruct (outcome (strategyOf call) (resolver env call)) as [[loc|] [e|]];
    try done.
  injection Hl as ->. cbn.
  destruct (strategyOf call).
  - by subst ids.
  - by subst ids.
  - destruct Hp as (Hf & -> & Hne). repeat split; [done|].
    rewrite flatUplinkIDs_length; [done..|].
    rewrite Hf. apply filtered_frames_have_three.
  - destruct Hp as (Hf & -> & Hne). repeat split; [done|].
    rewrite flatUplinkIDs_length; [done..|]. by rewrite Hf.
Qed.

Lemma outcome_error s loc err l c' :
  outcome s (loc, err) = (l, Some c') →
  ∃ c, err = Some c ∧ c ≠ ErrNoLocation ∧ s ≠ WIFI
       ∧ c' = Wrap c "geolocation error" ∧ l = None.
Proof.
  unfold outcome. destruct err as [c|]; [|done].
  destruct (decide _); [done|].
  destruct s; intros [= <- <-]; by exists c.
Qed.



(** * The scenarios *)

Import Scenario.

(** The WiFi strategy fires, the resolver is down: the handler reports
    success and the sink receives an event with an empty location. *)
Lemma wifi_resolver_error_is_swallowed_witness :
  let pl := uplink [rx1] wifiJson in
  let i := integration (conf false true false false 0 0) in
  let t := callsOf (HandleUplinkEvent resolverDown i ∅ pl) (freshWorld ∅) in
  resolverCalls t = [WifiTDOASingleFrame [rx1] wifiAPs]
  ∧ resolver resolverDown (WifiTDOASingleFrame [rx1] wifiAPs)
    = (zeroLocation, Some requestError)
  ∧ requestError ≠ ErrNoLocation
  ∧ (HandleUplinkEvent resolverDown i ∅ pl (freshWorld ∅)).1 = None
  ∧ locationEvents t = [locationEventOf pl zeroLocation []].
Proof.
  assert (resolverCalls
            (callsOf (HandleUplinkEvent resolverDown
                        (integration (conf false true false false 0 0)) ∅
                        (uplink [rx1] wifiJson)) (freshWorld ∅))
          = [WifiTDOASingleFrame [rx1] wifiAPs]) as H1 by (vm_compute; reflexivity).
  assert (resolver resolverDown (WifiTDOASingleFrame [rx1] wifiAPs)
          = (zeroLocation, Some requestError)) as H2 by reflexivity.
  assert (requestError ≠ ErrNoLocation) as H3 by discriminate.
  split; [exact H1|]. split; [exact H2|]. split; [exact H3|].
  exact (wifi_resolver_error_is_swallowed resolverDown
           (integration (conf false true false false 0 0)) ∅
           (uplink [rx1] wifiJson) (freshWorld ∅) [rx1] wifiAPs zeroLocation
           requestError H1 H2 H3).
Defined.

(** C2 fails on the code: GNSS and TDOA are enabled, the object is not
    valid JSON, the frame has three fine timestamps.  The GNSS extractor
    fails; TDOA, which comes after it, qualifies; yet nothing is
    attempted. *)
Lemma extractor_failure_falls_through_fails :
  let pl := uplink frame123 truncatedJson in
  let i := integration (conf true false true false 0 0) in
  (failedExtractor (answering GEO_RESOLVER_TDOA) (config i) pl = Some GNSS
   ∧ firstQualifying (answering GEO_RESOLVER_TDOA) (config i) [frame123] pl = Some TDOA
   ∧ attempted (callsOf (HandleUplinkEvent (answering GEO_RESOLVER_TDOA) i ∅ pl) (freshWorld ∅))
     = [])
  ∧ ¬ spec_extractor_failure_falls_through (answering GEO_RESOLVER_TDOA) i ∅ pl (freshWorld ∅).
Proof.
  split; [by vm_compute|].
  intros H. destruct (H GNSS) as (_ & _ & H3); [by vm_compute|].
  vm_compute in H3. discriminate.
Qed.

Lemma extractor_failure_ends_the_evaluation_witness :
  let pl := uplink frame123 truncatedJson in
  let i := integration (conf true false true false 0 0) in
  let e := answering GEO_RESOLVER_TDOA in
  let t := callsOf (HandleUplinkEvent e i ∅ pl) (freshWorld ∅) in
  Geolocation (config i) = true
  ∧ (updateGeolocBuffer e i (copy_array 8 (DevEui pl)) pl (freshWorld ∅)).1.2 = None
  ∧ failedExtractor e (config i) pl = Some GNSS
  ∧ (HandleUplinkEvent e i ∅ pl (freshWorld ∅)).1 = None
  ∧ attempted t = []
  ∧ locationEvents t = [].
Proof.
  split; [reflexivity|]. split; [by vm_compute|]. split; [by vm_compute|].
  apply (extractor_failure_ends_the_evaluation (answering GEO_RESOLVER_TDOA)
           (integration (conf true false true false 0 0)) ∅
           (uplink frame123 truncatedJson) (freshWorld ∅) GNSS);
    [reflexivity | by vm_compute | by vm_compute].
Defined.

(** C3 fails on the code: WiFi and RSSI are enabled, the WiFi field holds
    a string instead of a list, the buffer holds one frame.  RSSI is the
    first (and only) strategy that qualifies, and it is not attempted. *)
Lemma first_qualifying_wins_fails :
  let pl := uplink frame123 wifiNotAListJson in
  let i := integration (conf false true false true 0 0) in
  (failedExtractor (answering GEO_RESOLVER_RSSI) (config i) pl = Some WIFI
   ∧ firstQualifying (answering GEO_RESOLVER_RSSI) (config i) [frame123] pl = Some RSSI
   ∧ attempted (callsOf (geolocation (answering GEO_RESOLVER_RSSI) i devEUI [frame123] pl)
                  (freshWorld ∅)) = [])
  ∧ ¬ spec_first_qualifying_wins (answering GEO_RESOLVER_RSSI) i devEUI [frame123] pl
        (freshWorld ∅).
Proof.
  split; [by vm_compute|].
  intros H. vm_compute in H. discriminate.
Qed.

(** GNSS and TDOA both qualify and the resolver has no fix for the GNSS
    payload: GNSS is the only attempt, and the uplink ends without a
    location event. *)
Lemma strategy_priority_witness :
  let pl := uplink frame123 gnssJson in
  let i := integration (conf true false true false 0 0) in
  let tH := callsOf (HandleUplinkEvent noFix i ∅ pl) (freshWorld ∅) in
  firstQualifying noFix (config i) [frame123] pl = Some GNSS
  ∧ attempted (callsOf (geolocation noFix i devEUI [frame123] pl) (freshWorld ∅)) = [GNSS]
  ∧ (HandleUplinkEvent noFix i ∅ pl (freshWorld ∅)).1 = None
  ∧ locationEvents tH = []
  ∧ attempted tH = [GNSS].
Proof.
  destruct (strategy_priority noFix (integration (conf true false true false 0 0)) ∅
              (uplink frame123 gnssJson) (freshWorld ∅) devEUI [frame123])
    as (H1 & _ & _ & H4).
  split; [by vm_compute|]. split; [rewrite H1; by vm_compute|].
  assert (resolverCalls
            (callsOf (HandleUplinkEvent noFix
                        (integration (conf true false true false 0 0)) ∅
                        (uplink frame123 gnssJson)) (freshWorld ∅))
          = [GNSSLR1110SingleFrame frame123 false [b 1; b 2; b 3]]) as Hc
    by (by vm_compute).
  destruct (H4 (GNSSLR1110SingleFrame frame123 false [b 1; b 2; b 3]) zeroLocation)
    as (H5 & H6 & H7); [rewrite Hc; constructor | reflexivity |].
  split; [exact H5|]. split; [exact H6|]. unfold attempted. by rewrite H7.
Defined.

(** C4 fails on the code: GNSS and TDOA are enabled, the GNSS field is
    not base64, the buffer holds one frame with three fine timestamps and
    [k = 0].  TDOA is enabled, neither GNSS nor WiFi fires, the filtered
    buffer has [max 1 k = 1] frame, and TDOA is not attempted. *)
Lemma min_buffer_gating_fails :
  let pl := uplink frame123 gnssBadBase64Json in
  let i := integration (conf true false true false 0 0) in
  let t := attempted (callsOf (geolocation (answering GEO_RESOLVER_TDOA) i devEUI [frame123] pl)
                        (freshWorld ∅)) in
  (t = []
   ∧ GeolocationTDOA (config i) = true
   ∧ Z.max 1 (GeolocationMinBufferSize (config i))
     ≤ Z.of_nat (length (filterOnFineTimestamp [frame123] 3)))
  ∧ ¬ spec_min_buffer_gating (answering GEO_RESOLVER_TDOA) i devEUI [frame123] pl (freshWorld ∅).
Proof.
  split; [by vm_compute|].
  intros [[_ H] _].
  assert (TDOA ∈ @nil Strategy) as Hin; [|by apply elem_of_nil in Hin].
  apply H. split; [reflexivity|]. split; [apply not_elem_of_nil|].
  split; [apply not_elem_of_nil|]. by vm_compute.
Qed.

(** Two frames are wanted and the buffer holds one: TDOA is enabled and
    nothing fires before it, and it is not attempted. *)
Lemma min_buffer_gating_witness :
  let pl := uplink frame123 "" in
  let i := integration (conf false false true false 2 60) in
  let t := attempted (callsOf (geolocation (answering GEO_RESOLVER_TDOA) i devEUI [frame123] pl)
                        (freshWorld ∅)) in
  ¬ (Z.max 1 2 ≤ Z.of_nat (length (filterOnFineTimestamp [frame123] 3)))
  ∧ (TDOA ∉ t).
Proof.
  destruct (min_buffer_gating (answering GEO_RESOLVER_TDOA)
              (integration (conf false false true false 2 60)) devEUI [frame123]
              (uplink frame123 "") (freshWorld ∅)) as [[H _] _].
  assert (¬ (Z.max 1 2 ≤ Z.of_nat (length (filterOnFineTimestamp [frame123] 3)))) as Hlen
    by (vm_compute; intros Hc; by apply Hc).
  split; [exact Hlen|].
  intros Hin. apply H in Hin as (_ & _ & _ & _ & Hk). by apply Hlen.
Defined.

(** The second uplink of a device: the buffer holds the frame 4, 5, 6,
    the uplink brings the frame 1, 2, 3, and the event lists the six
    uplink ids, oldest frame first. *)
Lemma uplink_ids_propagation_witness :
  let pl := uplink frame123 "" in
  let i := integration (conf false false true false 2 60) in
  let t := callsOf (HandleUplinkEvent (answering GEO_RESOLVER_TDOA) i ∅ pl) afterFirstUplink in
  let ev := locationEventOf pl (resolved GEO_RESOLVER_TDOA)
              [[b 4]; [b 5]; [b 6]; [b 1]; [b 2]; [b 3]] in
  reachable afterFirstUplink
  ∧ resolverCalls t = [TDOAMultiFrame [frame456; frame123]]
  ∧ locationEvents t = [ev]
  ∧ LUplinkIds ev = flatUplinkIDs [frame456; frame123]
  ∧ LFCnt ev = 0.
Proof.
  assert (reachable afterFirstUplink) as H1.
  { apply rtc_once. apply step_uplink. }
  assert (resolverCalls
            (callsOf (HandleUplinkEvent (answering GEO_RESOLVER_TDOA)
                        (integration (conf false false true false 2 60)) ∅
                        (uplink frame123 "")) afterFirstUplink)
          = [TDOAMultiFrame [frame456; frame123]]) as H2 by (by vm_compute).
  assert (locationEvents
            (callsOf (HandleUplinkEvent (answering GEO_RESOLVER_TDOA)
                        (integration (conf false false true false 2 60)) ∅
                        (uplink frame123 "")) afterFirstUplink)
          = [locationEventOf (uplink frame123 "") (resolved GEO_RESOLVER_TDOA)
               [[b 4]; [b 5]; [b 6]; [b 1]; [b 2]; [b 3]]]) as H3 by (by vm_compute).
  split; [exact H1|]. split; [exact H2|]. split; [exact H3|].
  destruct (uplink_ids_propagation (answering GEO_RESOLVER_TDOA)
              (integration (conf false false true false 2 60)) ∅
              (uplink frame123 "") afterFirstUplink
              (TDOAMultiFrame [frame456; frame123]) _ H1 H2 H3) as (_ & H4 & H5).
  split; [exact H4 | exact H5].
Defined.

(** Two access points whose MAC blobs have two and eight bytes: both are
    accepted, the first padded with four zeros, the second cut to its
    first six bytes. *)
Lemma wifi_mac_length_not_validated_witness :
  wifiOddMacJson ≠ ""
  ∧ json_Unmarshal (answering GEO_RESOLVER_WIFI) wifiOddMacJson
    = inr {["wifi_aps" := wifiOddMacValue]}
  ∧ getWifiAccessPointsFromJSONObject (answering GEO_RESOLVER_WIFI) "wifi_aps" wifiOddMacJson
    = ([ {| MacAddress := [b 1; b 2; b 0; b 0; b 0; b 0]; SignalStrength := -10 |};
         {| MacAddress := [b 1; b 2; b 3; b 4; b 5; b 6]; SignalStrength := -20 |} ],
       None).
Proof.
  assert (wifiOddMacJson ≠ "") as H1 by discriminate.
  assert (json_Unmarshal (answering GEO_RESOLVER_WIFI) wifiOddMacJson
          = inr {["wifi_aps" := wifiOddMacValue]}) as H2 by (by vm_compute).
  split; [exact H1|]. split; [exact H2|].
  destruct (wifi_mac_length_not_validated (answering GEO_RESOLVER_WIFI) "wifi_aps"
              wifiOddMacJson {["wifi_aps" := wifiOddMacValue]}
              [apJson "AQI=" (S754_finite true 5 1);
               apJson "AQIDBAUGBwg=" (S754_finite true 5 2)]
              oddMacBlobs H1 H2) as (aps & Haps & _).
  - reflexivity.
  - repeat constructor; eexists _, _; repeat split; reflexivity.
  - rewrite Haps. by vm_compute.
Defined.

(** ** Cases of the test suite *)

(** "geolocation enabled, single TDOA" *)
Example single_frame_tdoa :
  let r := HandleUplinkEvent (answering GEO_RESOLVER_TDOA)
             (integration (conf false false true false 0 0)) ∅
             (uplink frame123 "") (freshWorld ∅) in
  r.1 = None
  ∧ resolverCalls (trace r.2) = [TDOASingleFrame frame123]
  ∧ locationEvents (trace r.2)
    = [locationEventOf (uplink frame123 "") (resolved GEO_RESOLVER_TDOA)
         [[b 1]; [b 2]; [b 3]]].
Proof. by vm_compute. Qed.

(** "geolocation enabled, fallback to RSSI (only two fine-timestamps)" *)
Example fallback_to_rssi :
  let pl := uplink [rx1; rx2; rx3_plain] "" in
  let r := HandleUplinkEvent (answering GEO_RESOLVER_RSSI)
             (integration (conf false false true true 0 0)) ∅ pl (freshWorld ∅) in
  filterOnFineTimestamp [[rx1; rx2; rx3_plain]] 3 = []
  ∧ resolverCalls (trace r.2) = [RSSISingleFrame [rx1; rx2; rx3_plain]]
  ∧ LUplinkIds <$> locationEvents (trace r.2) = [[[b 1]; [b 2]; [b 3]]].
Proof. by vm_compute. Qed.

(** "geoloc buffer too small" *)
Example buffer_too_small :
  let r := HandleUplinkEvent (answering GEO_RESOLVER_TDOA)
             (integration (conf false false true false 2 60)) ∅
             (uplink frame123 "") (freshWorld ∅) in
  r.1 = None
  ∧ resolverCalls (trace r.2) = []
  ∧ locationEvents (trace r.2) = []
  ∧ storedFrames (kv r.2) devEUI (seconds 60) = [frame123].
Proof. by vm_compute. Qed.

(** "gnss geolocation" *)
Example gnss_geolocation :
  let pl := uplink frame123 gnssJson in
  let r := HandleUplinkEvent (answering GEO_RESOLVER_GNSS)
             (integration (conf true false false false 0 0)) ∅ pl (freshWorld ∅) in
  resolverCalls (trace r.2) = [GNSSLR1110SingleFrame frame123 false [b 1; b 2; b 3]]
  ∧ locationEvents (trace r.2) = [locationEventOf pl (resolved GEO_RESOLVER_GNSS) []]
  ∧ LFCnt <$> locationEvents (trace r.2) = [FCnt pl].
Proof. by vm_compute. Qed.

(** "gnss geolocation, no payload" *)
Example gnss_no_payload :
  let r := HandleUplinkEvent (answering GEO_RESOLVER_GNSS)
             (integration (conf true false false false 0 0)) ∅
             (uplink frame123 otherFieldJson) (freshWorld ∅) in
  r.1 = None ∧ resolverCalls (trace r.2) = [] ∧ locationEvents (trace r.2) = [].
Proof. by vm_compute. Qed.

(** "wifi geolocation" *)
Example wifi_geolocation :
  let pl := uplink [rx1] wifiJson in
  let r := HandleUplinkEvent (answering GEO_RESOLVER_WIFI)
             (integration (conf false true false false 0 0)) ∅ pl (freshWorld ∅) in
  resolverCalls (trace r.2) = [WifiTDOASingleFrame [rx1] wifiAPs]
  ∧ locationEvents (trace r.2) = [locationEventOf pl (resolved GEO_RESOLVER_WIFI) []].
Proof. by vm_compute. Qed.

(** The sink rejects the event: the handler logs and returns success. *)
Example sink_failure_is_logged :
  let r := HandleUplinkEvent
             (withSinkError (answering GEO_RESOLVER_TDOA) (External "sink is down"))
             (integration (conf false false true false 0 0)) ∅
             (uplink frame123 "") (freshWorld ∅) in
  r.1 = None
  ∧ last (trace r.2)
    = Some (IOLog ErrorLevel "integration/loracloud: geolocation error"
              (Some (External "sink is down"))).
Proof. by vm_compute. Qed.

(** The store is down: the handler returns the wrapped error and neither
    the resolver nor the sink is called. *)
Example store_failure_is_returned :
  let down :=
    {| json_Unmarshal := unmarshal; base64_DecodeString := decodeBase64;
       store_get_fault := Some (External "connection refused");
       store_save_fault := None;
       resolver := fun _ => (resolved GEO_RESOLVER_TDOA, None);
       sink_HandleLocationEvent := fun _ => None |} in
  let r := HandleUplinkEvent down (integration (conf false false true false 0 0)) ∅
             (uplink frame123 "") (freshWorld ∅) in
  r.1 = Some (Wrap (Wrap (External "connection refused") "get geoloc buffer error")
                "update geolocation buffer error")
  ∧ resolverCalls (trace r.2) = []
  ∧ locationEvents (trace r.2) = [].
Proof. by vm_compute. Qed.

(** Three gateways that encrypt their fine timestamps: no reception has a
    nanosecond value, the filter of the specification drops the frame, the
    code keeps it whole and the TDOA call sends it. *)
Lemma filterOnFineTimestamp_keeps_encrypted_witness :
  let i := integration (conf false false true false 0 0) in
  let pl := uplink frameEncrypted "" in
  let t := callsOf (HandleUplinkEvent (answering GEO_RESOLVER_TDOA) i ∅ pl) (freshWorld ∅) in
  (In frameEncrypted (filterOnFineTimestamp [frameEncrypted] 3)
   ∧ ¬ In frameEncrypted (spec_filter_on_fine_timestamp [frameEncrypted] 3))
  ∧ spec_filter_on_fine_timestamp [frameEncrypted] 3 = []
  ∧ filterOnFineTimestamp [frameEncrypted] 3 = [frameEncrypted]
  ∧ resolverCalls t = [TDOASingleFrame frameEncrypted].
Proof.
  split; [|by vm_compute].
  destruct (filterOnFineTimestamp_keeps_encrypted [frameEncrypted] 3) as (_ & _ & H).
  apply H.
  - by left.
  - by repeat constructor.
  - cbn. lia.
Defined.


(** With a TTL of zero the buffer is single-frame only: the frame of a
    first uplink is not kept, and a second uplink sends its own frame
    alone. *)
Example ttl_zero_is_single_frame :
  let i := integration (conf false false true false 0 0) in
  let w1 := (HandleUplinkEvent (answering GEO_RESOLVER_TDOA) i ∅
               (uplink frame456 "") (freshWorld ∅)).2 in
  let t := callsOf (HandleUplinkEvent (answering GEO_RESOLVER_TDOA) i ∅
                      (uplink frame123 "")) w1 in
  storedFrames (kv w1) devEUI (seconds 60) = []
  ∧ resolverCalls t = [TDOASingleFrame frame123]
  ∧ LUplinkIds <$> locationEvents t = [[[b 1]; [b 2]; [b 3]]].
Proof. by vm_compute. Qed.

(** * Further properties *)

(** ** The filter on fine timestamps *)

(** X1: filtering a buffer made of two parts is filtering each part: the
    frames are judged one by one, so what an appended frame adds to the
    filtered buffer does not depend on the frames before it. *)
Theorem filterOnFineTimestamp_app (b1 b2 : list (list UplinkRXInfo)) (minPerFrame : Z) :
  filterOnFineTimestamp (b1 ++ b2) minPerFrame
  = filterOnFineTimestamp b1 minPerFrame ++ filterOnFineTimestamp b2 minPerFrame.
Proof.
  rewrite !filterOnFineTimestamp_keptFrames. unfold keptFrames.
  by rewrite map_app, List.filter_app.
Qed.

Lemma filter_filter_id {A} (f : A → bool) (l : list A) :
  List.filter f (List.filter f l) = List.filter f l.
Proof.
  induction l as [|x l IH]; [done|]. cbn.
  destruct (f x) eqn:Hx; cbn; [|done]. by rewrite Hx, IH.
Qed.

(** X2: the filter is idempotent: a buffer that went through it passes
    unchanged a second time (with the same minimum). *)
Theorem filterOnFineTimestamp_idempotent (buffer : list (list UplinkRXInfo))
    (minPerFrame : Z) :
  filterOnFineTimestamp (filterOnFineTimestamp buffer minPerFrame) minPerFrame
  = filterOnFineTimestamp buffer minPerFrame.
Proof.
  rewrite !filterOnFineTimestamp_keptFrames. unfold keptFrames.
  induction buffer as [|frame buffer IH]; [done|]. cbn.
  destruct (minPerFrame <=? Z.of_nat (length (List.filter hasFineTimestamp frame)))
    eqn:Hlen; [|done].
  cbn. rewrite filter_filter_id, Hlen. by rewrite IH.
Qed.

Lemma sublist_bool_filter {A} (f : A → bool) (l : list A) : sublist (List.filter f l) l.
Proof.
  induction l as [|x l IH]; [done|]. cbn.
  destruct (f x); by constructor.
Qed.

Lemma sublist_map {A B} (f : A → B) (l1 l2 : list A) :
  sublist l1 l2 → sublist (map f l1) (map f l2).
Proof. induction 1; cbn; by constructor. Qed.

(** X3: what TDOA reports is part of what RSSI would report: the uplink
    ids of the filtered buffer are a subsequence (same order, nothing
    added) of the uplink ids of the whole buffer, and the filtered buffer
    has no more frames than the buffer. *)
Theorem filtered_uplink_ids_sublist (buffer : list (list UplinkRXInfo)) (minPerFrame : Z) :
  sublist (flatUplinkIDs (filterOnFineTimestamp buffer minPerFrame))
    (flatUplinkIDs buffer)
  ∧ (length (filterOnFineTimestamp buffer minPerFrame) ≤ length buffer)%nat.
Proof.
  rewrite filterOnFineTimestamp_keptFrames. unfold keptFrames, flatUplinkIDs.
  induction buffer as [|frame buffer [IH1 IH2]]; [done|]. cbn.
  destruct (minPerFrame <=? _); cbn.
  - split; [|lia]. apply sublist_app; [|done].
    apply sublist_map, sublist_bool_filter.
  - split; [|lia]. by apply sublist_inserts_l.
Qed.

(** X4: with a minimum of zero or less no frame is dropped, and whatever
    the minimum every reception that is kept carries a fine timestamp and
    every frame that is kept has at least [minPerFrame] receptions. *)
Theorem filterOnFineTimestamp_keeps (buffer : list (list UplinkRXInfo)) (minPerFrame : Z) :
  (minPerFrame ≤ 0 →
   filterOnFineTimestamp buffer minPerFrame = map (List.filter hasFineTimestamp) buffer)
  ∧ Forall (fun frame =>
              minPerFrame ≤ Z.of_nat (length frame)
              ∧ Forall (fun rx => FineTimestamp rx ≠ None) frame)
      (filterOnFineTimestamp buffer minPerFrame).
Proof.
  rewrite filterOnFineTimestamp_keptFrames. unfold keptFrames. split.
  - intros Hmin. induction buffer as [|frame buffer IH]; [done|]. cbn.
    rewrite IH. destruct (Z.leb_spec minPerFrame (Z.of_nat (length (List.filter hasFineTimestamp frame))));
      [done|lia].
  - apply Forall_forall. intros frame Hin.
    apply list_elem_of_In, filter_In in Hin as [Hin Hlen].
    apply in_map_iff in Hin as [g [<- _]].
    split; [lia|]. apply Forall_forall. intros rx Hrx.
    apply list_elem_of_In, filter_In in Hrx as [_ Hrx].
    unfold hasFineTimestamp in Hrx. by destruct (FineTimestamp rx).
Qed.

(** ** The object extractors *)

(** X5: the three outcomes of the GNSS extractor.  It returns a payload
    exactly when the object is a non-empty document that decodes, holds a
    string under the field, and the string is the base64 form of at least
    one byte; it returns nothing, without error, exactly when the document
    is empty, lacks the field, or holds a string that decodes to no byte;
    it fails exactly when the document does not decode, the field holds
    anything but a string (a JSON null included), or the string is not
    base64. *)
Theorem getBytesFromJSONObject_outcomes env field jsonStr (b : list byte) :
  (b ≠ [] →
   (getBytesFromJSONObject env field jsonStr = (b, None)
    ↔ jsonStr ≠ ""
      ∧ ∃ v str, json_Unmarshal env jsonStr = inr v
                 ∧ v !! field = Some (JString str)
                 ∧ base64_DecodeString env str = inr b))
  ∧ (getBytesFromJSONObject env field jsonStr = ([], None)
     ↔ jsonStr = ""
       ∨ ∃ v, json_Unmarshal env jsonStr = inr v
              ∧ (v !! field = None
                 ∨ ∃ str, v !! field = Some (JString str)
                          ∧ base64_DecodeString env str = inr []))
  ∧ ((getBytesFromJSONObject env field jsonStr).2 ≠ None
     ↔ jsonStr ≠ ""
       ∧ ((∃ err, json_Unmarshal env jsonStr = inl err)
          ∨ ∃ v x, json_Unmarshal env jsonStr = inr v
                   ∧ v !! field = Some x
                   ∧ ((∀ str, x ≠ JString str)
                      ∨ ∃ str err, x = JString str
                                   ∧ base64_DecodeString env str = inl err))).
Proof.
  unfold getBytesFromJSONObject.
  destruct (decide (jsonStr = "")) as [->|Hne].
  { split; [|split].
    - intros Hb. split; [intros [= <-]; done | intros [? _]; done].
    - split; [by left | done].
    - cbn. split; [done | intros [? _]; done]. }
  destruct (json_Unmarshal env jsonStr) as [err|v].
  { split; [|split].
    - intros Hb. split; [done | intros (_ & v & str & ? & _); done].
    - split; [done | intros [?|(v & ? & _)]; done].
    - cbn. split; [intros _; split; [done|]; left; by exists err | done]. }
  destruct (v !! field) as [x|] eqn:Hx.
  2:{ split; [|split].
      - intros Hb. split; [intros [= <-]; done | intros (_ & v' & str & [= <-] & ? & _)].
        congruence.
      - split; [intros _; right; exists v; split; [done | by left] | done].
      - cbn. split; [done | intros (_ & [[e ?] | (v' & x & [= <-] & ? & _)]); congruence]. }
  destruct x as [ | bb | f | str | l | m ];
    try (split; [|split];
         [ intros Hb; split; [done | intros (_ & v' & s & [= <-] & ? & _); congruence]
         | split; [done | intros [? | (v' & [= <-] & [? | (s & ? & _)])]; congruence]
         | cbn; split; [intros _; split; [done|]; right; eexists v, _;
                        split; [done|]; split; [done|]; left; done
                       | done] ]).
  destruct (base64_DecodeString env str) as [err|bytes] eqn:Hd.
  - split; [|split].
    + intros Hb. split; [done | intros (_ & v' & s & [= <-] & Hs & Hd')]. congruence.
    + split; [done | intros [? | (v' & [= <-] & [? | (s & Hs & Hd')])]; congruence].
    + cbn. split; [|done]. intros _. split; [done|]. right. exists v, (JString str).
      split; [done|]. split; [done|]. right. by exists str, err.
  - split; [|split].
    + intros Hb. split.
      * intros [= ->]. split; [done|]. by exists v, str.
      * intros (_ & v' & s & [= <-] & Hs & Hd'). congruence.
    + split.
      * intros [= ->]. right. exists v. split; [done|]. right. by exists str.
      * intros [? | (v' & [= <-] & [? | (s & Hs & Hd')])]; congruence.
    + cbn. split; [done|].
      intros (_ & [[e ?] | (v' & x & [= <-] & Hx' & [Hns | (s & e & -> & Hd')])]);
        [done | | congruence].
      rewrite Hx in Hx'. injection Hx' as <-. by destruct (Hns str).
Qed.

Lemma wifiAccessPointsLoop_all_or_nothing env aps out :
  (wifiAccessPointsLoop env aps out).2 = None
  ∨ (wifiAccessPointsLoop env aps out).1 = [].
Proof.
  revert out. induction aps as [|x aps IH]; intros out; cbn; [by left|].
  destruct x as [ | bb | f | str | l | m ]; try by right.
  destruct (m !! "macAddress") as [[ | bb1 | f1 | str1 | l1 | m1 ]|]; try by right.
  destruct (base64_DecodeString env str1); [by right|].
  destruct (m !! "signalStrength") as [[ | bb2 | f2 | str2 | l2 | m2 ]|]; try by right.
  apply IH.
Qed.

(** X6: neither extractor returns data next to an error: when the GNSS
    extractor fails it returns no byte, and when the WiFi extractor fails,
    be it on the last entry of a long list, it returns no access point. *)
Theorem extractors_all_or_nothing env field jsonStr :
  ((getBytesFromJSONObject env field jsonStr).2 = None
   ∨ (getBytesFromJSONObject env field jsonStr).1 = [])
  ∧ ((getWifiAccessPointsFromJSONObject env field jsonStr).2 = None
     ∨ (getWifiAccessPointsFromJSONObject env field jsonStr).1 = []).
Proof.
  unfold getBytesFromJSONObject, getWifiAccessPointsFromJSONObject.
  destruct (decide (jsonStr = "")); [by split; left|].
  destruct (json_Unmarshal env jsonStr) as [err|v]; [by split; right|].
  destruct (v !! field) as [x|]; [|by split; left].
  split.
  - destruct x; try by right. destruct (base64_DecodeString env s); [by right | by left].
  - destruct x; try by right. apply wifiAccessPointsLoop_all_or_nothing.
Qed.

Lemma wifiAccessPointsLoop_success env aps out r :
  wifiAccessPointsLoop env aps out = (r, None) →
  Forall (fun x => ∃ bytes ss, readableEntry env x bytes ss) aps
  ∧ length r = (length out + length aps)%nat.
Proof.
  revert out. induction aps as [|x aps IH]; intros out; cbn.
  { intros [= <-]. split; [done | lia]. }
  destruct x as [ | bb | f | str | l | m ]; try done.
  destruct (m !! "macAddress") as [[ | bb1 | f1 | str1 | l1 | m1 ]|] eqn:Hm; try done.
  destruct (base64_DecodeString env str1) as [err|bytes] eqn:Hb; [done|].
  destruct (m !! "signalStrength") as [[ | bb2 | f2 | str2 | l2 | m2 ]|] eqn:Hs; try done.
  intros Hloop. apply IH in Hloop as [Hall Hlen]. split.
  - constructor; [|done]. exists bytes, f2, m, str1. done.
  - rewrite length_app in Hlen. cbn in Hlen. lia.
Qed.

Lemma readable_entries_decoded env aps :
  Forall (fun x => ∃ bytes ss, readableEntry env x bytes ss) aps →
  ∃ decoded, Forall2 (fun x d => readableEntry env x d.1 d.2) aps decoded.
Proof.
  induction 1 as [|x aps (bytes & ss & Hx) _ [decoded IH]].
  - by exists [].
  - exists ((bytes, ss) :: decoded). by constructor.
Qed.

(** X7: on a list of access points the WiFi extractor succeeds exactly
    when every entry is an object with a [macAddress] string that is
    base64 and a numeric [signalStrength]; it then returns one access point
    per entry; a single entry of another shape anywhere in the list makes
    the whole extraction fail. *)
Theorem wifi_extraction_succeeds_iff env field jsonStr v entries :
  jsonStr ≠ "" →
  json_Unmarshal env jsonStr = inr v →
  v !! field = Some (JArray entries) →
  ((getWifiAccessPointsFromJSONObject env field jsonStr).2 = None
   ↔ Forall (fun x => ∃ bytes ss, readableEntry env x bytes ss) entries)
  ∧ ((getWifiAccessPointsFromJSONObject env field jsonStr).2 = None →
     length (getWifiAccessPointsFromJSONObject env field jsonStr).1 = length entries).
Proof.
  intros Hne Hjson Hfield. unfold getWifiAccessPointsFromJSONObject.
  destruct (decide (jsonStr = "")); [done|]. rewrite Hjson, Hfield.
  destruct (wifiAccessPointsLoop env entries []) as [r oe] eqn:Hloop. cbn.
  split; [split|].
  - intros ->. by apply wifiAccessPointsLoop_success in Hloop as [? _].
  - intros Hall. apply readable_entries_decoded in Hall as [decoded Hdec].
    rewrite (wifiAccessPointsLoop_readable _ _ decoded) in Hloop by done.
    by injection Hloop as _ <-.
  - intros ->. by apply wifiAccessPointsLoop_success in Hloop as [_ ?].
Qed.

(** The two access points of the odd-MAC document are readable. *)
Lemma wifi_extraction_succeeds_iff_witness :
  let e := answering GEO_RESOLVER_WIFI in
  let entries := [apJson "AQI=" (S754_finite true 5 1);
                  apJson "AQIDBAUGBwg=" (S754_finite true 5 2)] in
  ((getWifiAccessPointsFromJSONObject e "wifi_aps" wifiOddMacJson).2 = None
   ↔ Forall (fun x => ∃ bytes ss, readableEntry e x bytes ss) entries)
  ∧ ((getWifiAccessPointsFromJSONObject e "wifi_aps" wifiOddMacJson).2 = None →
     length (getWifiAccessPointsFromJSONObject e "wifi_aps" wifiOddMacJson).1
     = length entries).
Proof.
  apply (wifi_extraction_succeeds_iff (answering GEO_RESOLVER_WIFI) "wifi_aps"
           wifiOddMacJson {["wifi_aps" := wifiOddMacValue]}).
  - by vm_compute.
  - by vm_compute.
  - by vm_compute.
Defined.

(** ** The resolver call of an uplink *)

(** The call that [plan] decides on, case by case. *)
Lemma plan_shape env c geolocBuffer pl call uplinkIDs :
  plan env c geolocBuffer pl = Call call uplinkIDs →
  (∃ gnssPL,
     call = GNSSLR1110SingleFrame (RxInfo pl) (GeolocationGNSSUseRxTime c) gnssPL
     ∧ GeolocationGNSS c = true
     ∧ getBytesFromJSONObject env (GeolocationGNSSPayloadField c) (ObjectJson pl)
       = (gnssPL, None)
     ∧ gnssPL ≠ [])
  ∨ (∃ wifiAPs,
       call = WifiTDOASingleFrame (RxInfo pl) wifiAPs
       ∧ GeolocationWifi c = true
       ∧ getWifiAccessPointsFromJSONObject env (GeolocationWifiPayloadField c) (ObjectJson pl)
         = (wifiAPs, None)
       ∧ wifiAPs ≠ [])
  ∨ (call = tdoaCall (filterOnFineTimestamp geolocBuffer 3)
     ∧ GeolocationTDOA c = true
     ∧ filterOnFineTimestamp geolocBuffer 3 ≠ [])
  ∨ (call = rssiCall geolocBuffer ∧ GeolocationRSSI c = true ∧ geolocBuffer ≠ []).
Proof.
  unfold plan, gnssPlan, wifiPlan, tdoaPlan, rssiPlan.
  assert (∀ A (l : list A), (Z.of_nat (length l) =? 0) = false → l ≠ []) as Hne.
  { intros A l H ->. done. }
  destruct (GeolocationGNSS c);
    destruct (getBytesFromJSONObject env (GeolocationGNSSPayloadField c) (ObjectJson pl))
      as [blob [e1|]];
    destruct (Z.of_nat (length blob) =? 0) eqn:Hb;
    destruct (GeolocationWifi c);
    destruct (getWifiAccessPointsFromJSONObject env
                (GeolocationWifiPayloadField c) (ObjectJson pl)) as [aps [e2|]];
    destruct (Z.of_nat (length aps) =? 0) eqn:Ha;
    destruct (GeolocationTDOA c);
    destruct (Z.of_nat (length (filterOnFineTimestamp geolocBuffer 3)) =? 0) eqn:Ht;
    destruct (Z.of_nat (length (filterOnFineTimestamp geolocBuffer 3))
                <? GeolocationMinBufferSize c);
    destruct (GeolocationRSSI c);
    destruct (Z.of_nat (length geolocBuffer) =? 0) eqn:Hr;
    destruct (Z.of_nat (length geolocBuffer) <? GeolocationMinBufferSize c);
    cbn; intros [= <- <-];
    first [ left; eexists; by auto
          | right; left; eexists; by auto
          | right; right; left; by auto
          | right; right; right; by auto ].
Qed.

Lemma tdoaCall_cases frames :
  frames ≠ [] →
  (∃ frame, frames = [frame] ∧ tdoaCall frames = TDOASingleFrame frame)
  ∨ ((2 ≤ length frames)%nat ∧ tdoaCall frames = TDOAMultiFrame frames).
Proof.
  destruct frames as [|f [|g frames]]; [done | left; by exists f | right].
  split; [cbn; lia | done].
Qed.

Lemma rssiCall_cases frames :
  frames ≠ [] →
  (∃ frame, frames = [frame] ∧ rssiCall frames = RSSISingleFrame frame)
  ∨ ((2 ≤ length frames)%nat ∧ rssiCall frames = RSSIMultiFrame frames).
Proof.
  destruct frames as [|f [|g frames]]; [done | left; by exists f | right].
  split; [cbn; lia | done].
Qed.

Lemma filterOnFineTimestamp_length buffer minPerFrame :
  (length (filterOnFineTimestamp buffer minPerFrame) ≤ length buffer)%nat.
Proof.
  rewrite filterOnFineTimestamp_keptFrames. unfold keptFrames.
  etransitivity; [apply filter_length_le|]. by rewrite length_map.
Qed.

(** Under a TTL of zero (or less) the buffer of an uplink has one frame at
    most, its own. *)
Lemma single_frame_buffer m devEUI ttl frame :
  ttl ≤ 0 → (length (nextBuffer (storedFrames m devEUI ttl) frame) ≤ 1)%nat.
Proof.
  intros Httl. unfold nextBuffer, storedFrames.
  destruct (Z.ltb_spec 0 ttl); [lia|]. destruct (decide _); cbn; lia.
Qed.

(** X8: what each resolver call carries.  A GNSS call carries the
    receptions of the current uplink, the [use rx time] flag of the
    configuration and the non-empty payload the extractor returned; a WiFi
    call the receptions of the current uplink and the non-empty list the
    extractor returned; a TDOA call the buffer filtered on three fine
    timestamps per frame, an RSSI call the whole buffer, where the buffer
    is made of the frames read under the configured TTL and of the frame of
    the uplink when it has three receptions or more; the single-frame form
    is used exactly when that buffer has one frame, and a multi-frame call
    always carries two frames or more and is only made under a positive
    TTL (with a TTL of zero the buffer is single-frame only). *)
Theorem resolver_call_arguments env i vars pl w call :
  let devEUI := copy_array 8 (DevEui pl) in
  let buffer :=
    nextBuffer (storedFrames (kv w) devEUI (seconds (GeolocationBufferTTL (config i))))
      (RxInfo pl) in
  let t := callsOf (HandleUplinkEvent env i vars pl) w in
  resolverCalls t = [call] →
  match call with
  | GNSSLR1110SingleFrame rxInfo useRxTime gnssPL =>
      rxInfo = RxInfo pl
      ∧ useRxTime = GeolocationGNSSUseRxTime (config i)
      ∧ getBytesFromJSONObject env (GeolocationGNSSPayloadField (config i)) (ObjectJson pl)
        = (gnssPL, None)
      ∧ gnssPL ≠ []
  | WifiTDOASingleFrame rxInfo wifiAPs =>
      rxInfo = RxInfo pl
      ∧ getWifiAccessPointsFromJSONObject env
          (GeolocationWifiPayloadField (config i)) (ObjectJson pl) = (wifiAPs, None)
      ∧ wifiAPs ≠ []
  | TDOASingleFrame frame => filterOnFineTimestamp buffer 3 = [frame]
  | TDOAMultiFrame frames =>
      frames = filterOnFineTimestamp buffer 3 ∧ (2 ≤ length frames)%nat
      ∧ 0 < seconds (GeolocationBufferTTL (config i))
  | RSSISingleFrame frame => buffer = [frame]
  | RSSIMultiFrame frames =>
      frames = buffer ∧ (2 ≤ length frames)%nat
      ∧ 0 < seconds (GeolocationBufferTTL (config i))
  end.
Proof.
  intros devEUI buffer t Hcall.
  assert ((2 ≤ length buffer)%nat → 0 < seconds (GeolocationBufferTTL (config i))) as Httl.
  { intros Hlen.
    destruct (Z.ltb_spec 0 (seconds (GeolocationBufferTTL (config i)))) as [|Hle]; [done|].
    pose proof (single_frame_buffer (kv w) devEUI _ (RxInfo pl) Hle) as H1.
    fold buffer in H1. lia. }
  pose proof (filterOnFineTimestamp_length buffer 3) as Hfl.
  pose proof (HandleUplinkEvent_view env i vars pl w) as Hv.
  cbv zeta in Hv. fold devEUI buffer t in Hv.
  destruct Hv as [(_ & _ & Hn) | [(_ & _ & Hn & _) | (_ & _ & Hc & _)]];
    try (rewrite Hn in Hcall; done).
  rewrite Hcall in Hc. symmetry in Hc. apply plannedCalls_inv in Hc as [ids Hp].
  apply plan_shape in Hp
    as [(b & -> & _ & Hb & Hne) | [(aps & -> & _ & Ha & Hne)
       | [(-> & _ & Hne) | (-> & _ & Hne)]]].
  - by repeat split.
  - by repeat split.
  - destruct (tdoaCall_cases _ Hne) as [(f & Hf & ->) | (Hlen & ->)];
      [done | repeat split; [done | apply Httl; lia]].
  - destruct (rssiCall_cases _ Hne) as [(f & Hf & ->) | (Hlen & ->)];
      [done | repeat split; [done | by apply Httl]].
Qed.

(** A first uplink with three fine-timestamped receptions: the TDOA call
    sends the frame just buffered. *)
Lemma resolver_call_arguments_witness :
  let i := integration (conf false false true false 0 0) in
  let pl := uplink frame123 "" in
  let t := callsOf (HandleUplinkEvent (answering GEO_RESOLVER_TDOA) i ∅ pl) (freshWorld ∅) in
  resolverCalls t = [TDOASingleFrame frame123]
  ∧ filterOnFineTimestamp
      (nextBuffer (storedFrames (kv (freshWorld ∅)) (copy_array 8 (DevEui pl))
                     (seconds (GeolocationBufferTTL (config i)))) (RxInfo pl)) 3
    = [frame123].
Proof.
  assert (resolverCalls
            (callsOf (HandleUplinkEvent (answering GEO_RESOLVER_TDOA)
                        (integration (conf false false true false 0 0)) ∅
                        (uplink frame123 "")) (freshWorld ∅))
          = [TDOASingleFrame frame123]) as H by (by vm_compute).
  split; [exact H|].
  exact (resolver_call_arguments (answering GEO_RESOLVER_TDOA)
           (integration (conf false false true false 0 0)) ∅
           (uplink frame123 "") (freshWorld ∅) (TDOASingleFrame frame123) H).
Defined.

Lemma outcome_location s loc err loc' err' :
  outcome s (loc, err) = (Some loc', err') → loc' = loc ∧ err' = None.
Proof.
  unfold outcome. destruct err as [e|]; [|by intros [= <- <-]].
  destruct (decide _); [done|]. destruct s; by intros [= <- <-].
Qed.

(** X9: for every uplink there is at most one resolver call and at most
    one location event; an event is emitted only after a resolver call, and
    only by a handler that returns success. *)
Theorem at_most_one_call_and_event env i vars pl w :
  let t := callsOf (HandleUplinkEvent env i vars pl) w in
  (length (resolverCalls t) ≤ 1)%nat
  ∧ (length (locationEvents t) ≤ 1)%nat
  ∧ (locationEvents t ≠ [] →
     resolverCalls t ≠ [] ∧ (HandleUplinkEvent env i vars pl w).1 = None).
Proof.
  intros t.
  pose proof (HandleUplinkEvent_view env i vars pl w) as Hv.
  cbv zeta in Hv. fold t in Hv.
  set (p := plan env (config i) _ pl) in Hv.
  destruct Hv as [(_ & _ & ->) | [(_ & _ & -> & ->) | (_ & -> & -> & ->)]];
    [by (cbn; repeat split; try lia)..|].
  destruct p as [s err | call ids |]; cbn;
    [by (repeat split; try lia) | | by (repeat split; try lia)].
  destruct (outcome (strategyOf call) (resolver env call)) as [[loc|] [e|]];
    cbn; repeat split; try lia; try done.
Qed.

(** X10: the location event carries the location as the resolver
    returned it for the call of this uplink, and the identity of the
    uplink: application id and name, device name, the device id as it came
    in the uplink, and the tags. *)
Theorem location_event_carries_resolver_answer env i vars pl w call ev :
  let t := callsOf (HandleUplinkEvent env i vars pl) w in
  resolverCalls t = [call] →
  locationEvents t = [ev] →
  LLocation ev = (resolver env call).1
  ∧ LApplicationId ev = ApplicationId pl
  ∧ LApplicationName ev = ApplicationName pl
  ∧ LDeviceName ev = DeviceName pl
  ∧ LDevEui ev = DevEui pl
  ∧ LTags ev = Tags pl.
Proof.
  intros t Hcall Hev.
  pose proof (HandleUplinkEvent_view env i vars pl w) as Hv.
  cbv zeta in Hv. fold t in Hv.
  destruct Hv as [(_ & _ & Hn) | [(_ & _ & Hn & _) | (_ & _ & Hc & Hl)]];
    try (rewrite Hn in Hcall; done).
  rewrite Hcall in Hc. symmetry in Hc. apply plannedCalls_inv in Hc as [ids Hp].
  rewrite Hp, Hev in Hl. cbn in Hl.
  destruct (resolver env call) as [loc err]. cbn.
  destruct (outcome (strategyOf call) (loc, err)) as [[loc'|] [e|]] eqn:Ho; try done.
  apply outcome_location in Ho as [-> _]. by injection Hl as ->.
Qed.

(** The event of that uplink carries the location the resolver returned. *)
Lemma location_event_carries_resolver_answer_witness :
  let i := integration (conf false false true false 0 0) in
  let pl := uplink frame123 "" in
  let ev := locationEventOf pl (resolved GEO_RESOLVER_TDOA) [[b 1]; [b 2]; [b 3]] in
  let t := callsOf (HandleUplinkEvent (answering GEO_RESOLVER_TDOA) i ∅ pl) (freshWorld ∅) in
  locationEvents t = [ev]
  ∧ LLocation ev = (resolver (answering GEO_RESOLVER_TDOA) (TDOASingleFrame frame123)).1
  ∧ LApplicationId ev = ApplicationId pl
  ∧ LApplicationName ev = ApplicationName pl
  ∧ LDeviceName ev = DeviceName pl
  ∧ LDevEui ev = DevEui pl
  ∧ LTags ev = Tags pl.
Proof.
  assert (resolverCalls
            (callsOf (HandleUplinkEvent (answering GEO_RESOLVER_TDOA)
                        (integration (conf false false true false 0 0)) ∅
                        (uplink frame123 "")) (freshWorld ∅))
          = [TDOASingleFrame frame123]) as H1 by (by vm_compute).
  assert (locationEvents
            (callsOf (HandleUplinkEvent (answering GEO_RESOLVER_TDOA)
                        (integration (conf false false true false 0 0)) ∅
                        (uplink frame123 "")) (freshWorld ∅))
          = [locationEventOf (uplink frame123 "") (resolved GEO_RESOLVER_TDOA)
               [[b 1]; [b 2]; [b 3]]]) as H2 by (by vm_compute).
  split; [exact H2|].
  exact (location_event_carries_resolver_answer (answering GEO_RESOLVER_TDOA)
           (integration (conf false false true false 0 0)) ∅
           (uplink frame123 "") (freshWorld ∅) (TDOASingleFrame frame123) _ H1 H2).
Defined.

(** X11: a resolver failure on a GNSS, TDOA or RSSI call reaches the
    dispatcher: when the resolver returns an error other than
    [ErrNoLocation], the handler returns that error wrapped twice with
    "geolocation error" (once by the wrapper, once by the handler) and the
    sink is not called. *)
Theorem resolver_error_is_propagated env i vars pl w call loc err :
  let t := callsOf (HandleUplinkEvent env i vars pl) w in
  resolverCalls t = [call] →
  strategyOf call ≠ WIFI →
  resolver env call = (loc, Some err) →
  err ≠ ErrNoLocation →
  (HandleUplinkEvent env i vars pl w).1
  = Some (Wrap (Wrap err "geolocation error") "geolocation error")
  ∧ locationEvents t = [].
Proof.
  intros t Hcall Hs Hres Herr.
  pose proof (HandleUplinkEvent_view env i vars pl w) as Hv.
  cbv zeta in Hv. fold t in Hv.
  destruct Hv as [(_ & _ & Hn) | [(_ & _ & Hn & _) | (_ & Hr & Hc & Hl)]];
    try (rewrite Hn in Hcall; done).
  rewrite Hcall in Hc. symmetry in Hc. apply plannedCalls_inv in Hc as [ids Hp].
  rewrite Hp in Hr, Hl. cbn in Hr, Hl. rewrite Hres in Hr, Hl. cbn in Hr, Hl.
  destruct (decide (err = ErrNoLocation)); [done|].
  by destruct (strategyOf call).
Qed.

(** The resolver is down on an RSSI call: the handler returns the error. *)
Lemma resolver_error_is_propagated_witness :
  let i := integration (conf false false false true 0 0) in
  let pl := uplink frame123 "" in
  let t := callsOf (HandleUplinkEvent resolverDown i ∅ pl) (freshWorld ∅) in
  resolverCalls t = [RSSISingleFrame frame123]
  ∧ (HandleUplinkEvent resolverDown i ∅ pl (freshWorld ∅)).1
    = Some (Wrap (Wrap requestError "geolocation error") "geolocation error")
  ∧ locationEvents t = [].
Proof.
  assert (resolverCalls
            (callsOf (HandleUplinkEvent resolverDown
                        (integration (conf false false false true 0 0)) ∅
                        (uplink frame123 "")) (freshWorld ∅))
          = [RSSISingleFrame frame123]) as H by (by vm_compute).
  split; [exact H|].
  apply (resolver_error_is_propagated resolverDown
           (integration (conf false false false true 0 0)) ∅
           (uplink frame123 "") (freshWorld ∅) (RSSISingleFrame frame123)
           zeroLocation requestError H); done.
Defined.

(** ** Uplinks without a payload for GNSS and WiFi *)

(** X12: when GNSS is disabled or its extractor finds nothing, and WiFi
    is disabled or its extractor finds nothing (as on every uplink with an
    empty object), the orchestrator decides between TDOA and RSSI alone:
    it attempts the first of the two that qualifies. *)
Theorem payload_strategies_are_skipped env i devEUI geolocBuffer pl w :
  (GeolocationGNSS (config i) = false
   ∨ getBytesFromJSONObject env (GeolocationGNSSPayloadField (config i)) (ObjectJson pl)
     = ([], None)) →
  (GeolocationWifi (config i) = false
   ∨ getWifiAccessPointsFromJSONObject env
       (GeolocationWifiPayloadField (config i)) (ObjectJson pl) = ([], None)) →
  attempted (callsOf (geolocation env i devEUI geolocBuffer pl) w)
  = option_list (List.find (qualifies env (config i) geolocBuffer pl) [TDOA; RSSI]).
Proof.
  intros Hgnss Hwifi.
  destruct (geolocation_calls env i devEUI geolocBuffer pl w) as (_ & Ht & _).
  unfold attempted. rewrite Ht, plan_attempted.
  unfold failedExtractor, firstQualifying, priorityOrder.
  cbn [List.find qualifies].
  destruct Hgnss as [Hg | Hg], Hwifi as [Hw | Hw]; rewrite ?Hg, ?Hw;
    destruct (GeolocationGNSS (config i)), (GeolocationWifi (config i));
    try done.
Qed.

Lemma empty_object_has_no_payload env field :
  getBytesFromJSONObject env field "" = ([], None)
  ∧ getWifiAccessPointsFromJSONObject env field "" = ([], None).
Proof. done. Qed.

Lemma payload_strategies_are_skipped_witness :
  let i := integration (conf true true false true 0 0) in
  let pl := uplink frame123 "" in
  attempted (callsOf (geolocation (answering GEO_RESOLVER_RSSI) i devEUI [frame123] pl)
               (freshWorld ∅)) = [RSSI].
Proof.
  rewrite (payload_strategies_are_skipped (answering GEO_RESOLVER_RSSI)
             (integration (conf true true false true 0 0)) devEUI [frame123]
             (uplink frame123 "") (freshWorld ∅)).
  - by vm_compute.
  - right. apply empty_object_has_no_payload.
  - right. apply empty_object_has_no_payload.
Defined.

(** ** The errors the dispatcher can see *)

(** X13: an error returned by [HandleUplinkEvent] has one of three
    shapes: the error of the store read, wrapped with "get geoloc buffer
    error" and "update geolocation buffer error"; the error of the store
    write, wrapped with "save geoloc buffer error" and "update geolocation
    buffer error"; or the error the resolver returned for a GNSS, TDOA or
    RSSI call, wrapped twice with "geolocation error".  The resolver's
    [ErrNoLocation] is never returned, and no extractor error is. *)
Theorem returned_errors env i vars pl w e :
  let t := callsOf (HandleUplinkEvent env i vars pl) w in
  (HandleUplinkEvent env i vars pl w).1 = Some e →
  (∃ c, store_get_fault env = Some c
        ∧ e = Wrap (Wrap c "get geoloc buffer error") "update geolocation buffer error")
  ∨ (∃ c, store_save_fault env = Some c
          ∧ e = Wrap (Wrap c "save geoloc buffer error") "update geolocation buffer error")
  ∨ (∃ call loc c,
       resolverCalls t = [call] ∧ strategyOf call ≠ WIFI
       ∧ resolver env call = (loc, Some c) ∧ c ≠ ErrNoLocation
       ∧ e = Wrap (Wrap c "geolocation error") "geolocation error").
Proof.
  intros t He.
  destruct (framed_result _ w (framed_HandleUplinkEvent env i vars pl)) as (Hr & _ & Ht).
  fold t in Ht. rewrite Hr in He. rewrite Ht. clear Hr Ht t.
  destruct (Geolocation (config i)) eqn:Hg;
    [|by rewrite HandleUplinkEvent_disabled in He].
  set (devEUI := copy_array 8 (DevEui pl)).
  pose proof (updateGeolocBuffer_run env i devEUI pl (freshWorld (kv w))) as Hu.
  cbv zeta in Hu. cbn [kv trace freshWorld app] in Hu.
  destruct (store_get_fault env) as [c|] eqn:Hgf.
  { left. exists c. split; [done|].
    rewrite (HandleUplinkEvent_update_error _ _ _ _ _ (Wrap c "get geoloc buffer error") Hg)
      in He by (fold devEUI; by rewrite Hu).
    by injection He as <-. }
  right.
  assert (∀ buf, (updateGeolocBuffer env i devEUI pl (freshWorld (kv w))).1 = (buf, None) →
                 ∃ call loc c,
                   resolverCalls (trace (HandleUplinkEvent env i vars pl (freshWorld (kv w))).2)
                   = [call]
                   ∧ strategyOf call ≠ WIFI
                   ∧ resolver env call = (loc, Some c) ∧ c ≠ ErrNoLocation
                   ∧ e = Wrap (Wrap c "geolocation error") "geolocation error") as Hok.
  { intros buf Hbuf.
    destruct (HandleUplinkEvent_fresh env i vars pl (kv w) buf Hg Hbuf)
      as (H1 & _ & _ & H2 & _).
    rewrite H1 in He. rewrite H2.
    destruct (plan env (config i) buf pl) as [s err | call ids |]; try done.
    cbn in He |- *. destruct (resolver env call) as [loc err] eqn:Hres.
    destruct (outcome (strategyOf call) (loc, err)) as [l [c'|]] eqn:Ho; [|done].
    apply outcome_error in Ho as (c & -> & Hc & Hs & -> & _).
    injection He as <-. by exists call, loc, c. }
  destruct (nextBuffer
              (storedFrames (kv w) devEUI (seconds (GeolocationBufferTTL (config i))))
              (RxInfo pl)) as [|f buf] eqn:Hn.
  { right. apply (Hok []). by rewrite Hu. }
  destruct (store_save_fault env) as [c|] eqn:Hsf.
  - left. exists c. split; [done|].
    rewrite (HandleUplinkEvent_update_error _ _ _ _ _ (Wrap c "save geoloc buffer error") Hg)
      in He by (fold devEUI; by rewrite Hu).
    by injection He as <-.
  - right. apply (Hok (f :: buf)). by rewrite Hu.
Qed.

(** The store is down on the first read: the handler returns the read
    error in its two wrappings. *)
Lemma returned_errors_witness :
  let down :=
    {| json_Unmarshal := unmarshal; base64_DecodeString := decodeBase64;
       store_get_fault := Some (External "connection refused");
       store_save_fault := None;
       resolver := fun _ => (resolved GEO_RESOLVER_TDOA, None);
       sink_HandleLocationEvent := fun _ => None |} in
  let i := integration (conf false false true false 0 0) in
  let e := Wrap (Wrap (External "connection refused") "get geoloc buffer error")
             "update geolocation buffer error" in
  (HandleUplinkEvent down i ∅ (uplink frame123 "") (freshWorld ∅)).1 = Some e
  ∧ ((∃ c, store_get_fault down = Some c
           ∧ e = Wrap (Wrap c "get geoloc buffer error") "update geolocation buffer error")
     ∨ (∃ c, store_save_fault down = Some c
             ∧ e = Wrap (Wrap c "save geoloc buffer error")
                     "update geolocation buffer error")
     ∨ (∃ call loc c,
          resolverCalls (callsOf (HandleUplinkEvent down i ∅ (uplink frame123 ""))
                           (freshWorld ∅)) = [call]
          ∧ strategyOf call ≠ WIFI
          ∧ resolver down call = (loc, Some c) ∧ c ≠ ErrNoLocation
          ∧ e = Wrap (Wrap c "geolocation error") "geolocation error")).
Proof.
  split; [by vm_compute|].
  apply (returned_errors _ (integration (conf false false true false 0 0)) ∅
           (uplink frame123 "") (freshWorld ∅)).
  by vm_compute.
Defined.

(** ** The sink *)

Lemma wifiAccessPointsLoop_ext env env' aps out :
  base64_DecodeString env = base64_DecodeString env' →
  wifiAccessPointsLoop env aps out = wifiAccessPointsLoop env' aps out.
Proof.
  intros H. revert out. induction aps as [|x aps IH]; intros out; [done|].
  cbn. rewrite H. destruct x; try done.
  repeat case_match; try done; apply IH.
Qed.

Lemma getWifiAccessPointsFromJSONObject_ext env env' field jsonStr :
  json_Unmarshal env = json_Unmarshal env' →
  base64_DecodeString env = base64_DecodeString env' →
  getWifiAccessPointsFromJSONObject env field jsonStr
  = getWifiAccessPointsFromJSONObject env' field jsonStr.
Proof.
  intros Hj Hb. unfold getWifiAccessPointsFromJSONObject. rewrite Hj.
  repeat case_match; try done. by apply wifiAccessPointsLoop_ext.
Qed.

Lemma updateGeolocBuffer_withSink env sink i devEUI pl :
  updateGeolocBuffer (withSink env sink) i devEUI pl = updateGeolocBuffer env i devEUI pl.
Proof. reflexivity. Qed.

Lemma geolocation_withSink env sink i devEUI geolocBuffer pl :
  geolocation (withSink env sink) i devEUI geolocBuffer pl
  = geolocation env i devEUI geolocBuffer pl.
Proof.
  unfold geolocation, wifiBlock.
  by rewrite (getWifiAccessPointsFromJSONObject_ext (withSink env sink) env).
Qed.

(** X14: the sink has no say in the outcome: whatever the sink does with
    the event, the handler returns the same value, leaves the same store,
    and makes the same store calls, resolver calls and sink calls. *)
Theorem sink_does_not_change_the_outcome env i vars pl w
    (sink : LocationEvent → option error) :
  let r := HandleUplinkEvent env i vars pl w in
  let r' := HandleUplinkEvent (withSink env sink) i vars pl w in
  r'.1 = r.1
  ∧ kv r'.2 = kv r.2
  ∧ storeCalls (trace r'.2) = storeCalls (trace r.2)
  ∧ resolverCalls (trace r'.2) = resolverCalls (trace r.2)
  ∧ locationEvents (trace r'.2) = locationEvents (trace r.2).
Proof.
  cbv zeta. rewrite !HandleUplinkEvent_steps.
  rewrite !updateGeolocBuffer_withSink, !geolocation_withSink.
  set (devEUI := copy_array 8 (DevEui pl)).
  set (u := updateGeolocBuffer env i devEUI pl w).
  set (g := geolocation env i devEUI u.1.1 pl u.2).
  destruct (Geolocation (config i)); [|done].
  destruct (u.1.2); [done|].
  destruct (g.1) as [[ids [loc|]] [e|]]; try done.
  cbn [fst snd kv trace sink_HandleLocationEvent withSink].
  rewrite !storeCalls_app, !resolverCalls_app, !locationEvents_app.
  destruct (sink (locationEventOf pl loc ids)),
    (sink_HandleLocationEvent env (locationEventOf pl loc ids)); done.
Qed.

(** ** The order of the calls *)

(** X15: the calls of an uplink come in three phases: first the store
    (one read, then at most one write, both under the padded device id and
    the configured TTL), then the orchestrator (no store call and no sink
    call), last the sink (at most one event, followed by a log line exactly
    when the sink rejects it).  So the frame is buffered before the resolver is
    asked, whatever the resolver answers. *)
Theorem calls_in_order env i vars pl w :
  let devEUI := copy_array 8 (DevEui pl) in
  let ttl := seconds (GeolocationBufferTTL (config i)) in
  let t := callsOf (HandleUplinkEvent env i vars pl) w in
  ∃ storePhase orchestratorPhase sinkPhase,
    t = storePhase ++ orchestratorPhase ++ sinkPhase
    ∧ (storePhase = []
       ∨ storePhase = [IOGetGeolocBuffer devEUI ttl]
       ∨ ∃ buf, storePhase = [IOGetGeolocBuffer devEUI ttl;
                              IOSaveGeolocBuffer devEUI buf ttl])
    ∧ (storePhase = [] ↔ Geolocation (config i) = false)
    ∧ storeCalls orchestratorPhase = []
    ∧ locationEvents orchestratorPhase = []
    ∧ (sinkPhase = []
       ∨ ∃ ev, (sink_HandleLocationEvent env ev = None
                ∧ sinkPhase = [IOHandleLocationEvent vars ev])
               ∨ ∃ err, sink_HandleLocationEvent env ev = Some err
                        ∧ sinkPhase
                          = [IOHandleLocationEvent vars ev;
                             IOLog ErrorLevel "integration/loracloud: geolocation error"
                               (Some err)]).
Proof.
  intros devEUI ttl t.
  destruct (framed_result _ w (framed_HandleUplinkEvent env i vars pl)) as (_ & _ & Ht).
  fold t in Ht. rewrite Ht. clear Ht t.
  rewrite HandleUplinkEvent_steps. fold devEUI.
  destruct (Geolocation (config i)) eqn:Hg.
  2:{ exists [], [], []. cbn. repeat split; auto. }
  pose proof (updateGeolocBuffer_run env i devEUI pl (freshWorld (kv w))) as Hu.
  cbv zeta in Hu. cbn [kv trace freshWorld app] in Hu. fold ttl in Hu.
  set (u := updateGeolocBuffer env i devEUI pl (freshWorld (kv w))) in *.
  assert (trace u.2 = [IOGetGeolocBuffer devEUI ttl]
          ∨ ∃ buf, trace u.2 = [IOGetGeolocBuffer devEUI ttl;
                                IOSaveGeolocBuffer devEUI buf ttl]) as Hstore.
  { rewrite Hu. destruct (store_get_fault env); [by left|].
    destruct (nextBuffer _ _); [by left|].
    destruct (store_save_fault env); right; by eexists. }
  assert (trace u.2 ≠ []) as Hne.
  { destruct Hstore as [-> | [buf ->]]; done. }
  assert (trace u.2 = [] ↔ true = false) as Hiff by (split; done).
  destruct (u.1.2) as [err|].
  { exists (trace u.2), [], []. rewrite !app_nil_r.
    repeat split; auto; try (apply Hiff). }
  destruct (geolocation_adds env i devEUI u.1.1 pl u.2)
    as (_ & _ & d & Hd & _ & [Hq1 Hq2] & _).
  set (g := geolocation env i devEUI u.1.1 pl u.2) in *.
  destruct (g.1) as [[ids [loc|]] [e|]]; cbn [snd trace].
  - exists (trace u.2), d, []. rewrite app_nil_r.
    repeat split; auto; try (apply Hiff).
  - exists (trace u.2), d,
      (IOHandleLocationEvent vars (locationEventOf pl loc ids) ::
       match sink_HandleLocationEvent env (locationEventOf pl loc ids) with
       | Some err =>
           [IOLog ErrorLevel "integration/loracloud: geolocation error" (Some err)]
       | None => []
       end).
    rewrite Hd, <- app_assoc.
    repeat split; auto; try (apply Hiff).
    right. exists (locationEventOf pl loc ids).
    destruct (sink_HandleLocationEvent env _) as [err|] eqn:Hsink;
      [right; by exists err | by left].
  - exists (trace u.2), d, []. rewrite app_nil_r.
    repeat split; auto; try (apply Hiff).
  - exists (trace u.2), d, []. rewrite app_nil_r.
    repeat split; auto; try (apply Hiff).
Qed.

(** ** Durations *)

(** X16: [time.Duration(n) * time.Second] is [n] seconds exactly when
    [n] is between -9223372036 and 9223372036 (some 292 years); outside,
    the product wraps around in 64 bits, and the TTL handed to the store is
    not the configured number of seconds. *)
Theorem seconds_exact_iff (n : Z) :
  seconds n = n * 1000000000 ↔ -9223372036 ≤ n ≤ 9223372036.
Proof.
  unfold seconds, wrap_int64. split.
  - intros H.
    pose proof (Z.mod_pos_bound (n * 1000000000 + 2 ^ 63) (2 ^ 64) ltac:(lia)). lia.
  - intros H. rewrite Z.mod_small by lia. lia.
Qed.

(** ** What the calls carry *)

Lemma observations_app t1 t2 :
  observations (t1 ++ t2) = observations t1 ++ observations t2.
Proof. apply omap_app. Qed.

Lemma accounted_nil env i vars pl : accounted env i vars pl [].
Proof. by split. Qed.

Lemma accounted_app env i vars pl d1 d2 :
  accounted env i vars pl d1 → accounted env i vars pl d2 →
  accounted env i vars pl (d1 ++ d2).
Proof.
  intros [H1 H2] [H3 H4]. split; [by apply Forall_app|].
  by rewrite observations_app, resolverCalls_app, bind_app, H2, H4.
Qed.

Lemma accounted_log env i vars pl lvl msg err :
  accounted env i vars pl [IOLog lvl msg err].
Proof. split; [by repeat constructor | done]. Qed.

Section Emits.
Context (Q : list IO → Prop).
Hypothesis Q_nil : Q [].
Hypothesis Q_app : ∀ d1 d2, Q d1 → Q d2 → Q (d1 ++ d2).

Lemma emits_ret {A} (a : A) : emits Q (mret a : M A).
Proof. intros w. exists []. by rewrite app_nil_r. Qed.

Lemma emits_emit e : Q [e] → emits Q (emit e).
Proof. intros H w. by exists [e]. Qed.

Lemma emits_read_kv : emits Q read_kv.
Proof. intros w. exists []. by rewrite app_nil_r. Qed.

Lemma emits_write_kv m : emits Q (write_kv m).
Proof. intros w. exists []. by rewrite app_nil_r. Qed.

Lemma emits_bind {A B} (m : M A) (f : A → M B) :
  emits Q m → (∀ a, emits Q (f a)) → emits Q (m ≫= f).
Proof.
  intros Hm Hf w. unfold mbind, M_bind.
  destruct (Hm w) as (d1 & H1 & Hq1).
  destruct (m w) as [a w1]. cbn in H1.
  destruct (Hf a w1) as (d2 & H2 & Hq2).
  exists (d1 ++ d2). split; [|by apply Q_app].
  by rewrite H2, H1, app_assoc.
Qed.

Lemma emits_orElse {A} (block : M (option A)) (next : M A) :
  emits Q block → emits Q next → emits Q (orElse block next).
Proof.
  intros Hb Hn. unfold orElse. apply emits_bind; [done|].
  intros [a|]; [apply emits_ret | done].
Qed.
End Emits.

Lemma emits_callsOf {A} Q (run : M A) w : emits Q run → Q (callsOf run w).
Proof.
  intros H. destruct (H w) as (d & Hd & Hq).
  unfold callsOf. by rewrite Hd, drop_app_length.
Qed.

Ltac settings_ok :=
  repeat first [apply Forall_nil_2 | apply Forall_cons_2]; cbn; auto 10.

Lemma tdoaGeolocation_accounted env i vars pl devEUI frames :
  emits (accounted env i vars pl) (tdoaGeolocation env i devEUI frames).
Proof.
  unfold tdoaGeolocation.
  destruct frames as [|f [|g frames]]; intros w;
    unfold callResolver, mbind, M_bind, emit, mret, M_ret; cbn;
    (destruct (resolver env _) as [loc [err|]]; [destruct (decide _)|]; cbn;
     eexists; (split; [rewrite <- ?app_assoc; reflexivity|]);
     (split; [settings_ok | done])).
Qed.

Lemma rssiGeolocation_accounted env i vars pl devEUI frames :
  emits (accounted env i vars pl) (rssiGeolocation env i devEUI frames).
Proof.
  unfold rssiGeolocation.
  destruct frames as [|f [|g frames]]; intros w;
    unfold callResolver, mbind, M_bind, emit, mret, M_ret; cbn;
    (destruct (resolver env _) as [loc [err|]]; [destruct (decide _)|]; cbn;
     eexists; (split; [rewrite <- ?app_assoc; reflexivity|]);
     (split; [settings_ok | done])).
Qed.

Lemma gnssLR1110Geolocation_accounted env i vars pl devEUI rxInfo gnssPL :
  emits (accounted env i vars pl) (gnssLR1110Geolocation env i devEUI rxInfo gnssPL).
Proof.
  intros w. unfold gnssLR1110Geolocation, callResolver, mbind, M_bind, emit, mret, M_ret.
  cbn. destruct (resolver env _) as [loc [err|]] eqn:Hres; [destruct (decide _)|]; cbn;
    eexists; (split; [rewrite <- ?app_assoc; reflexivity|]);
    (split; [settings_ok | cbn; by rewrite Hres]).
Qed.

Lemma wifiTDOAGeolocation_accounted env i vars pl devEUI rxInfo aps :
  emits (accounted env i vars pl) (wifiTDOAGeolocation env i devEUI rxInfo aps).
Proof.
  intros w. unfold wifiTDOAGeolocation, callResolver, mbind, M_bind, emit, mret, M_ret.
  cbn. destruct (resolver env _) as [loc [err|]] eqn:Hres;
    [unfold bool_decide; destruct (decide_rel _ _ _)|]; cbn;
    eexists; (split; [rewrite <- ?app_assoc; reflexivity|]);
    (split; [settings_ok
            | cbn; rewrite Hres; cbn; first [done | by destruct (decide _)]]).
Qed.

Lemma geolocation_accounted env i vars pl devEUI geolocBuffer :
  emits (accounted env i vars pl) (geolocation env i devEUI geolocBuffer pl).
Proof.
  pose proof (accounted_nil env i vars pl) as Hnil.
  pose proof (accounted_app env i vars pl) as Happ.
  unfold geolocation.
  repeat (apply emits_orElse; [done | done | |]).
  - unfold gnssBlock. destruct (GeolocationGNSS _); [|by apply emits_ret].
    destruct (getBytesFromJSONObject _ _ _) as [gnssPL [err|]].
    { apply emits_bind; [done | apply emits_emit, accounted_log |].
      intros _. by apply emits_ret. }
    destruct (_ =? _).
    { apply emits_bind; [done | apply emits_emit, accounted_log |].
      intros _. by apply emits_ret. }
    apply emits_bind; [done | apply gnssLR1110Geolocation_accounted |].
    intros [loc err]. by apply emits_ret.
  - unfold wifiBlock. destruct (GeolocationWifi _); [|by apply emits_ret].
    destruct (getWifiAccessPointsFromJSONObject _ _ _) as [wifiAPs [err|]].
    { apply emits_bind; [done | apply emits_emit, accounted_log |].
      intros _. by apply emits_ret. }
    destruct (_ =? _).
    { apply emits_bind; [done | apply emits_emit, accounted_log |].
      intros _. by apply emits_ret. }
    apply emits_bind; [done | apply wifiTDOAGeolocation_accounted |].
    intros [loc err]. by apply emits_ret.
  - unfold tdoaBlock. destruct (GeolocationTDOA _); [|by apply emits_ret].
    cbv zeta. destruct (_ || _).
    { apply emits_bind; [done | apply emits_emit, accounted_log |].
      intros _. by apply emits_ret. }
    apply emits_bind; [done | apply tdoaGeolocation_accounted |].
    intros [loc err]. by apply emits_ret.
  - unfold rssiBlock. destruct (GeolocationRSSI _); [|by apply emits_ret].
    destruct (_ || _).
    { apply emits_bind; [done | apply emits_emit, accounted_log |].
      intros _. by apply emits_ret. }
    apply emits_bind; [done | apply rssiGeolocation_accounted |].
    intros [loc err]. by apply emits_ret.
  - by apply emits_ret.
Qed.

Lemma accounted_store env i vars pl e :
  usesSettings i vars pl e → observations [e] = [] → resolverCalls [e] = [] →
  accounted env i vars pl [e].
Proof. intros He H1 H2. split; [by repeat constructor|]. by rewrite H1, H2. Qed.

Lemma GetGeolocBuffer_accounted env i vars pl :
  emits (accounted env i vars pl)
    (GetGeolocBuffer env (copy_array 8 (DevEui pl))
       (seconds (GeolocationBufferTTL (config i)))).
Proof.
  pose proof (accounted_nil env i vars pl) as Hnil.
  pose proof (accounted_app env i vars pl) as Happ.
  unfold GetGeolocBuffer.
  apply emits_bind; [done | apply emits_emit, accounted_store; done |].
  intros _. destruct (store_get_fault env); [by apply emits_ret|].
  apply emits_bind; [done | apply emits_read_kv; done |].
  intros m. by apply emits_ret.
Qed.

Lemma SaveGeolocBuffer_accounted env i vars pl items :
  emits (accounted env i vars pl)
    (SaveGeolocBuffer env (copy_array 8 (DevEui pl)) items
       (seconds (GeolocationBufferTTL (config i)))).
Proof.
  pose proof (accounted_nil env i vars pl) as Hnil.
  pose proof (accounted_app env i vars pl) as Happ.
  unfold SaveGeolocBuffer.
  apply emits_bind; [done | apply emits_emit, accounted_store; done |].
  intros _. destruct items; [by apply emits_ret|].
  destruct (store_save_fault env); [by apply emits_ret|].
  apply emits_bind; [done | apply emits_read_kv; done |].
  intros m. apply emits_bind; [done | apply emits_write_kv; done |].
  intros _. by apply emits_ret.
Qed.

Lemma updateGeolocBuffer_accounted env i vars pl :
  emits (accounted env i vars pl)
    (updateGeolocBuffer env i (copy_array 8 (DevEui pl)) pl).
Proof.
  pose proof (accounted_nil env i vars pl) as Hnil.
  pose proof (accounted_app env i vars pl) as Happ.
  unfold updateGeolocBuffer.
  apply emits_bind; [done | apply GetGeolocBuffer_accounted |].
  intros [buf [err|]]; [by apply emits_ret|].
  cbv zeta. destruct (negb _); [|by apply emits_ret].
  apply emits_bind; [done | apply SaveGeolocBuffer_accounted |].
  intros [err|]; by apply emits_ret.
Qed.

Lemma HandleUplinkEvent_accounted env i vars pl :
  emits (accounted env i vars pl) (HandleUplinkEvent env i vars pl).
Proof.
  pose proof (accounted_nil env i vars pl) as Hnil.
  pose proof (accounted_app env i vars pl) as Happ.
  unfold HandleUplinkEvent. cbv zeta.
  destruct (Geolocation (config i)); [|by apply emits_ret].
  apply emits_bind; [done | apply updateGeolocBuffer_accounted |].
  intros [buf [err|]]; [by apply emits_ret|].
  apply emits_bind; [done | apply geolocation_accounted |].
  intros [[ids loc] [err|]]; [by apply emits_ret|].
  destruct loc as [loc|]; [|by apply emits_ret].
  apply emits_bind; [done | |].
  { apply emits_emit. split; [by repeat constructor | done]. }
  intros _. destruct (sink_HandleLocationEvent env _); [|by apply emits_ret].
  apply emits_bind; [done | apply emits_emit, accounted_log |].
  intros _. by apply emits_ret.
Qed.

(** X17: every call that leaves the package during an uplink uses the
    settings of the integration and the identity of the uplink: the store
    is read and written under the device id of the uplink (padded or cut
    to eight bytes) with the configured TTL; the resolver is addressed
    with the URI and the token of the integration, which for an integration
    built by [New] is https://gls.loracloud.com and the configured token;
    the sink gets the variables as they came and an event with the
    application, device name, device id and tags of the uplink; durations
    are observed under the six known labels only. *)
Theorem calls_use_the_settings env i vars pl w :
  let t := callsOf (HandleUplinkEvent env i vars pl) w in
  Forall (usesSettings i vars pl) t
  ∧ ∀ conf, i = (New conf).1 →
      Forall (fun e => match e with
                       | IOResolver uri token _ =>
                           uri = "https://gls.loracloud.com"
                           ∧ token = GeolocationToken conf
                       | _ => True
                       end) t.
Proof.
  intros t.
  destruct (emits_callsOf _ _ w (HandleUplinkEvent_accounted env i vars pl)) as [H _].
  fold t in H. split; [done|].
  intros conf ->. eapply Forall_impl; [exact H|].
  intros [] He; done.
Qed.

(** X18: the durations observed during an uplink are those of its
    resolver calls, in order: a TDOA or RSSI call is timed under its single
    or multi label whatever the resolver answers; a GNSS call is timed only
    when the resolver returns no error; a WiFi call is timed unless the
    resolver returns [ErrNoLocation]; nothing else is timed. *)
Theorem durations_observed env i vars pl w :
  let t := callsOf (HandleUplinkEvent env i vars pl) w in
  observations t = resolverCalls t ≫= observedLabels env.
Proof.
  intros t.
  by destruct (emits_callsOf _ _ w (HandleUplinkEvent_accounted env i vars pl)) as [_ H].
Qed.

(** ** The uplink ids and the frame counter of the event *)

Lemma flatUplinkIDs_receptions frames :
  length (flatUplinkIDs frames) = receptions frames.
Proof.
  unfold flatUplinkIDs, receptions.
  induction frames as [|f frames IH]; [done|].
  cbn. by rewrite !length_app, length_map, IH.
Qed.

(** X19: in any world (also one whose store holds frames that this code
    would not have buffered), the event that follows a resolver call
    carries the uplink ids of the frames sent with the call, one per
    reception and in order (none for GNSS and WiFi, which send no frames),
    and its frame counter is the one of the uplink exactly when there are
    no such ids, zero otherwise; after a TDOA call it is always zero. *)
Theorem frame_counter_of_the_event env i vars pl w call ev :
  let t := callsOf (HandleUplinkEvent env i vars pl) w in
  resolverCalls t = [call] →
  locationEvents t = [ev] →
  LUplinkIds ev = flatUplinkIDs (framesOf call)
  ∧ length (LUplinkIds ev) = receptions (framesOf call)
  ∧ LFCnt ev = (if decide (receptions (framesOf call) = 0%nat) then FCnt pl else 0)
  ∧ (strategyOf call = TDOA → LFCnt ev = 0).
Proof.
  intros t Hcall Hev.
  pose proof (HandleUplinkEvent_view env i vars pl w) as Hv.
  cbv zeta in Hv. fold t in Hv.
  destruct Hv as [(_ & _ & Hn) | [(_ & _ & Hn & _) | (_ & _ & Hc & Hl)]];
    try (rewrite Hn in Hcall; done).
  rewrite Hcall in Hc. symmetry in Hc. apply plannedCalls_inv in Hc as [ids Hp].
  rewrite Hp in Hl. cbn in Hl. rewrite Hev in Hl.
  apply plan_call in Hp.
  destruct (outcome (strategyOf call) (resolver env call)) as [[loc|] [e|]];
    try done.
  injection Hl as ->.
  assert (ids = flatUplinkIDs (framesOf call)) as ->.
  { destruct call; cbn in Hp |- *; try done; by destruct Hp as (_ & -> & _). }
  cbn [LUplinkIds LFCnt locationEventOf].
  rewrite flatUplinkIDs_receptions.
  split; [done|]. split; [done|]. split.
  - destruct (decide _) as [-> | Hne]; [done|].
    by destruct (receptions (framesOf call)).
  - intros Hs. rewrite Hs in Hp. destruct Hp as (Hf & _ & Hne).
    rewrite <- flatUplinkIDs_receptions, flatUplinkIDs_length; [done..|].
    rewrite Hf. apply filtered_frames_have_three.
Qed.

(** A store that holds, under a TTL of a minute, one frame without
    receptions: the RSSI call sends it, the event has no uplink ids and
    carries the frame counter of the uplink. *)
Lemma frame_counter_of_the_event_witness :
  let i := integration (conf false false false true 0 60) in
  let pl := uplink [rx1] "" in
  let w := freshWorld {[devEUI := ([[]], seconds 60)]} in
  let ev := locationEventOf pl (resolved GEO_RESOLVER_RSSI) [] in
  let t := callsOf (HandleUplinkEvent (answering GEO_RESOLVER_RSSI) i ∅ pl) w in
  resolverCalls t = [RSSISingleFrame []]
  ∧ locationEvents t = [ev]
  ∧ LFCnt ev = 10.
Proof.
  assert (resolverCalls
            (callsOf (HandleUplinkEvent (answering GEO_RESOLVER_RSSI)
                        (integration (conf false false false true 0 60)) ∅
                        (uplink [rx1] "")) (freshWorld {[devEUI := ([[]], seconds 60)]}))
          = [RSSISingleFrame []]) as H1 by (by vm_compute).
  assert (locationEvents
            (callsOf (HandleUplinkEvent (answering GEO_RESOLVER_RSSI)
                        (integration (conf false false false true 0 60)) ∅
                        (uplink [rx1] "")) (freshWorld {[devEUI := ([[]], seconds 60)]}))
          = [locationEventOf (uplink [rx1] "") (resolved GEO_RESOLVER_RSSI) []])
    as H2 by (by vm_compute).
  split; [exact H1|]. split; [exact H2|].
  destruct (frame_counter_of_the_event (answering GEO_RESOLVER_RSSI)
              (integration (conf false false false true 0 60)) ∅
              (uplink [rx1] "") (freshWorld {[devEUI := ([[]], seconds 60)]})
              (RSSISingleFrame []) _ H1 H2) as (_ & _ & H3 & _).
  exact H3.
Defined.

(** ** The decoders *)

Lemma geolocation_withDecoders env unmarshal decode i devEUI geolocBuffer pl :
  (GeolocationGNSS (config i) = false ∧ GeolocationWifi (config i) = false)
  ∨ ObjectJson pl = "" →
  geolocation (withDecoders env unmarshal decode) i devEUI geolocBuffer pl
  = geolocation env i devEUI geolocBuffer pl.
Proof.
  unfold geolocation, gnssBlock, wifiBlock.
  intros [[-> ->] | ->]; [done|].
  by destruct (GeolocationGNSS _), (GeolocationWifi _).
Qed.

(** X20: the JSON and base64 decoders are not consulted when GNSS and
    WiFi are both disabled, nor when the uplink has no decoded object:
    whatever they would answer, the handler does the same. *)
Theorem decoders_unused_without_payload env i vars pl w
    (unmarshal : string → error + gmap string JSON)
    (decode : string → error + list byte) :
  (GeolocationGNSS (config i) = false ∧ GeolocationWifi (config i) = false)
  ∨ ObjectJson pl = "" →
  HandleUplinkEvent (withDecoders env unmarshal decode) i vars pl w
  = HandleUplinkEvent env i vars pl w.
Proof.
  intros H. rewrite !HandleUplinkEvent_steps. cbv zeta.
  change (updateGeolocBuffer (withDecoders env unmarshal decode) i)
    with (updateGeolocBuffer env i).
  by rewrite (geolocation_withDecoders env unmarshal decode i _ _ pl H).
Qed.

Lemma decoders_unused_without_payload_witness :
  let i := integration (conf true true true false 0 0) in
  let broken :=
    withDecoders (answering GEO_RESOLVER_TDOA)
      (fun _ => inl (External "unexpected end of JSON input"))
      (fun _ => inl (External "illegal base64 data at input byte 0")) in
  HandleUplinkEvent broken i ∅ (uplink frame123 "") (freshWorld ∅)
  = HandleUplinkEvent (answering GEO_RESOLVER_TDOA) i ∅ (uplink frame123 "") (freshWorld ∅).
Proof.
  apply (decoders_unused_without_payload (answering GEO_RESOLVER_TDOA)
           (integration (conf true true true false 0 0)) ∅ (uplink frame123 "")
           (freshWorld ∅)).
  by right.
Defined.
